(** * tree/main.cpp : the TREE command, embedded and verified

    A shallow embedding of [HasSubFolder], [DrawTree],
    [GetDirectoryStructure] and [wmain] of tree/main.cpp, followed by the
    properties of the traversal and of the rendered lines.

    Conventions of the embedding.
    - A [wchar_t] is a 16-bit code unit, kept as a [Z]; a wide C string is
      the list of its code units up to, and without, the terminating NUL.
    - The Win32 directory search is an oracle [FindFirstFile]: for a search
      pattern it gives either nothing ([INVALID_HANDLE_VALUE]) or the first
      match together with the matches the later [FindNextFile] calls yield.
    - [HasSubFolder] declares its [WIN32_FIND_DATA] without initialising it;
      what that buffer holds when the search cannot be opened is the second
      oracle, [stale].
    - Everything the process does to the outside is recorded as a trace of
      events; a computation ends with a value, with the invalid-parameter
      termination of a [_s] string routine whose buffer is too small, or
      with the recursion budget of the model used up.
    - [malloc] and [realloc] are taken to succeed, and array sizes to fit
      their C types.  That a name fits [cFileName], an array of [MAX_PATH]
      code units, is stated where it is used ([fits]).
    - [prevLine[j]] is read with [nth]; the traversal never reads a
      previous line beyond its end, as each line handed down is at least
      four code units longer than the prefix it was drawn with. *)

From Stdlib Require Import String Ascii.
From Stdlib Require Import ZArith List Bool Lia.
Import ListNotations.
Open Scope Z_scope.

(** ** Wide characters and strings *)

Definition wchar_t := Z.
Definition wstring := list wchar_t.

(** [L "..."] is the wide literal with the given ASCII characters. *)
Definition L (s : string) : wstring :=
  map (fun a => Z.of_nat (nat_of_ascii a)) (list_ascii_of_string s).

(** The line feed that ends every [wprintf] format of the program. *)
Definition LF : wstring := [10].

Definition wcs_eqb (a b : wstring) : bool :=
  if list_eq_dec Z.eq_dec a b then true else false.

Definition STR_MAX : nat := 2048.
Definition MAX_PATH : nat := 260.
Definition FILE_ATTRIBUTE_DIRECTORY : Z := 0x10.
Definition UINT_MAX1 : Z := 2 ^ 32.

(** The box-drawing code units the program writes. *)
Definition u251c : wchar_t := 0x251c.  (* branch          *)
Definition u2502 : wchar_t := 0x2502.  (* vertical bar    *)
Definition u2500 : wchar_t := 0x2500.  (* horizontal bar  *)
Definition u2514 : wchar_t := 0x2514.  (* last branch     *)

(** [(BYTE)c] : the low eight bits. *)
Definition BYTE (c : wchar_t) : Z := Z.land c 0xff.

Record WIN32_FIND_DATA := mkFindData {
  dwFileAttributes : Z;
  cFileName : wstring
}.

(** ** Events, outcomes and the monad of the program *)

Inductive event :=
| Stdout (text : wstring)
| Stderr (text : wstring)
| FindFirst (pattern : wstring).

Inductive outcome (A : Type) :=
| Value (a : A)
| InvalidParameter
| OutOfFuel.
Arguments Value {A} a.
Arguments InvalidParameter {A}.
Arguments OutOfFuel {A}.

Definition io (A : Type) : Type := (list event * outcome A)%type.

Definition ret {A} (a : A) : io A := ([], Value a).

Definition bind {A B} (m : io A) (k : A -> io B) : io B :=
  match m with
  | (t, Value a) => let (t', o) := k a in (t ++ t', o)
  | (t, InvalidParameter) => (t, InvalidParameter)
  | (t, OutOfFuel) => (t, OutOfFuel)
  end.

Definition emit (e : event) : io unit := ([e], Value tt).

Definition checked {A} (o : option A) : io A :=
  match o with
  | Some a => ret a
  | None => ([], InvalidParameter)
  end.

Notation "x <- m ;; k" := (bind m (fun x => k))
  (at level 61, m at next level, right associativity).
Notation "m ;;; k" := (bind m (fun _ => k))
  (at level 61, right associativity).

(** ** The string routines *)

(** [wcscat_s(dest, n, src)] : the concatenation when it fits [n] code
    units with its terminator, the invalid-parameter handler otherwise. *)
Definition wcscat_s (dest : wstring) (n : nat) (src : wstring) : option wstring :=
  if (length dest + length src + 1 <=? n)%nat then Some (dest ++ src) else None.

(** [StringCchPrintf(str, n, fmt, ...)] : the formatted text, cut to
    [n - 1] code units. *)
Definition StringCchPrintf (n : nat) (formatted : wstring) : wstring :=
  firstn (n - 1) formatted.

(** ** Process-wide flags *)

Record globals := mkGlobals {
  bShowFiles : bool;
  bUseAscii : bool;
  bSetPath : bool
}.

(** ** HasSubFolder *)

Definition is_directory (d : WIN32_FIND_DATA) : bool :=
  negb (Z.land (dwFileAttributes d) FILE_ATTRIBUTE_DIRECTORY =? 0).

Definition is_dots (d : WIN32_FIND_DATA) : bool :=
  wcs_eqb (cFileName d) (L ".") || wcs_eqb (cFileName d) (L "..").

(** The do-while loop of [HasSubFolder]: [FindFileData] is the entry under
    inspection, [next] what [FindNextFile] still has to give. *)
Fixpoint HasSubFolder_scan (FindFileData : WIN32_FIND_DATA)
    (next : list WIN32_FIND_DATA) : bool :=
  if is_directory FindFileData && negb (is_dots FindFileData) then true
  else match next with
       | [] => false
       | d :: next' => HasSubFolder_scan d next'
       end.

(** ** The indentation loop of DrawTree *)

Definition is_continuation (c : wchar_t) : bool :=
  (c =? u251c) || (c =? u2502) || (BYTE c =? 0x2b) || (BYTE c =? 0x7c).

Definition column (ascii : bool) (c : wchar_t) : wstring :=
  if is_continuation c then (if negb ascii then [u2502] else L "|") else L " ".

(** [indent ascii prevLine n j consoleOut] runs the [n] remaining rounds of
    [for (j = 0; j < width - 1; ++j)] from column [j].  [prevLine[j]] is
    read as [nth j prevLine 0]: the terminator at the end of the line. *)
Fixpoint indent (ascii : bool) (prevLine : wstring) (n j : nat)
    (consoleOut : wstring) : option wstring :=
  match n with
  | O => Some consoleOut
  | S n' =>
      match wcscat_s consoleOut STR_MAX (column ascii (nth j prevLine 0)) with
      | Some consoleOut' => indent ascii prevLine n' (S j) consoleOut'
      | None => None
      end
  end.

(** The text [StringCchPrintf] formats for entry [i] of [szArr]. *)
Definition segment (ascii drawfolder bHasSubFolder : bool) (szArr i : nat)
    (name : wstring) : wstring :=
  if negb (szArr - 1 =? i)%nat then
    if drawfolder then
      if ascii then L "+---" ++ name
      else [u251c; u2500; u2500; u2500] ++ name
    else
      if bHasSubFolder then
        if ascii then L "|   " ++ name
        else [u2502] ++ L "   " ++ name
      else L "     " ++ name
  else
    if drawfolder then
      if ascii then L "\---" ++ name
      else [u2514; u2500; u2500; u2500] ++ name
    else
      if bHasSubFolder then
        if ascii then L "|   " ++ name
        else [u2502] ++ L "   " ++ name
      else L "     " ++ name.

(** The number of rounds of the indentation loop: [width - 1] as a UINT. *)
Definition columns (width : Z) : nat := Z.to_nat ((width - 1) mod UINT_MAX1).

(** [consoleOut] as it stands when entry [i] is printed. *)
Definition console_line (ascii drawfolder bHasSubFolder : bool) (szArr : nat)
    (width : Z) (prevLine : wstring) (i : nat) (name : wstring) : option wstring :=
  match indent ascii prevLine (columns width) 0 [] with
  | Some consoleOut =>
      wcscat_s consoleOut STR_MAX
        (StringCchPrintf STR_MAX (segment ascii drawfolder bHasSubFolder szArr i name))
  | None => None
  end.

(** [strPath + "\" + name], built with three [wcscat_s]. *)
Definition child_path (strPath name : wstring) : option wstring :=
  match wcscat_s [] STR_MAX strPath with
  | Some s =>
      match wcscat_s s STR_MAX (L "\") with
      | Some s' => wcscat_s s' STR_MAX name
      | None => None
      end
  | None => None
  end.

(** ** GetDirectoryStructure: sorting the entries *)

(** The do-while loop that fills [arrFolder] and [arrFile]. *)
Fixpoint collect (found : list WIN32_FIND_DATA)
    (arrFolder arrFile : list WIN32_FIND_DATA)
    : list WIN32_FIND_DATA * list WIN32_FIND_DATA :=
  match found with
  | [] => (arrFolder, arrFile)
  | FindFileData :: found' =>
      if is_directory FindFileData then
        if is_dots FindFileData then collect found' arrFolder arrFile
        else collect found' (arrFolder ++ [FindFileData]) arrFile
      else collect found' arrFolder (arrFile ++ [FindFileData])
  end.

(** The spoofed entry: only [cFileName] is written by the source, the
    attributes of the fresh array cell are never read. *)
Definition spacer : WIN32_FIND_DATA := mkFindData 0 (L " ").

Definition spoof (arrFile : list WIN32_FIND_DATA) : list WIN32_FIND_DATA :=
  if (0 <? length arrFile)%nat then arrFile ++ [spacer] else arrFile.

Section Traversal.

(** The directory search of the host, and the indeterminate contents of
    the find buffer of [HasSubFolder] for the path it probes. *)
Variable FindFirstFile : wstring -> option (WIN32_FIND_DATA * list WIN32_FIND_DATA).
Variable stale : wstring -> WIN32_FIND_DATA.

Definition HasSubFolder (strPath : wstring) : io bool :=
  folderPath <- checked (wcscat_s [] STR_MAX strPath) ;;
  folderPath <- checked (wcscat_s folderPath STR_MAX (L "\*.")) ;;
  emit (FindFirst folderPath) ;;;
  match FindFirstFile folderPath with
  | Some (FindFileData, next) => ret (HasSubFolder_scan FindFileData next)
  | None => ret (HasSubFolder_scan (stale strPath) [])
  end.

Section Render.

(** The forward declaration of [GetDirectoryStructure]. *)
Variable recurse : wstring -> Z -> wstring -> io unit.

Variable g : globals.
Variable strPath : wstring.
Variable szArr : nat.
Variable width : Z.
Variable prevLine : wstring.
Variable drawfolder : bool.
Variable bHasSubFolder : bool.

(** The body of [for (i = 0; i < szArr; ++i)], from index [i] on. *)
Fixpoint DrawTree_loop (i : nat) (arr : list WIN32_FIND_DATA) : io unit :=
  match arr with
  | [] => ret tt
  | entry :: arr' =>
      consoleOut <- checked (console_line (bUseAscii g) drawfolder
                               bHasSubFolder szArr width prevLine i
                               (cFileName entry)) ;;
      emit (Stdout (consoleOut ++ LF)) ;;;
      (if drawfolder then
         str <- checked (child_path strPath (cFileName entry)) ;;
         recurse str ((width + 4) mod UINT_MAX1) consoleOut
       else ret tt) ;;;
      DrawTree_loop (S i) arr'
  end.

End Render.

Definition DrawTree (recurse : wstring -> Z -> wstring -> io unit)
    (g : globals) (strPath : wstring) (arrFolder : list WIN32_FIND_DATA)
    (width : Z) (prevLine : wstring) (drawfolder : bool) : io unit :=
  bHasSubFolder <- HasSubFolder strPath ;;
  DrawTree_loop recurse g strPath (length arrFolder) width prevLine
    drawfolder bHasSubFolder 0 arrFolder.

Fixpoint GetDirectoryStructure (fuel : nat) (g : globals) (strPath : wstring)
    (width : Z) (prevLine : wstring) : io unit :=
  match fuel with
  | O => ([], OutOfFuel)
  | S fuel' =>
      tmp <- checked (wcscat_s [] STR_MAX strPath) ;;
      tmp <- checked (wcscat_s tmp STR_MAX (L "\*.*")) ;;
      emit (FindFirst tmp) ;;;
      match FindFirstFile tmp with
      | None => ret tt
      | Some (FindFileData, next) =>
          let (arrFolder, arrFile) := collect (FindFileData :: next) [] [] in
          (if bShowFiles g then
             DrawTree (GetDirectoryStructure fuel' g) g strPath
               (spoof arrFile) width prevLine false
           else ret tt) ;;;
          DrawTree (GetDirectoryStructure fuel' g) g strPath arrFolder
            width prevLine true
      end
  end.

End Traversal.

(** ** wmain *)

(** [wc "x"] is the wide character constant [L'x']. *)
Definition wc (a : ascii) : wchar_t := Z.of_nat (nat_of_ascii a).

(** [towlower] in the "C" locale, the only one the program runs in: it
    never calls [setlocale]. *)
Definition towlower (c : wchar_t) : wchar_t :=
  if (wc "A" <=? c) && (c <=? wc "Z") then c + 32 else c.

(** The [%X] conversion of an unsigned 32-bit value. *)
Definition hex_digit (d : Z) : wchar_t :=
  if d <? 10 then wc "0" + d else wc "A" + (d - 10).

Fixpoint hex_digits (n : nat) (v : Z) (acc : wstring) : wstring :=
  match n with
  | O => acc
  | S n' =>
      let acc' := hex_digit (v mod 16) :: acc in
      if v / 16 =? 0 then acc' else hex_digits n' (v / 16) acc'
  end.

Definition fmt_X (v : Z) : wstring := hex_digits 8 (v mod UINT_MAX1) [].

(** [wcschr(s, c)] : the tail of [s] from the first [c], if there is one. *)
Fixpoint wcschr (s : wstring) (c : wchar_t) : option wstring :=
  match s with
  | [] => None
  | x :: s' => if x =? c then Some s else wcschr s' c
  end.

(** The [%s] conversion, of a null pointer too. *)
Definition fmt_s (s : option wstring) : wstring :=
  match s with
  | Some s => s
  | None => L "(null)"
  end.

Definition usage : wstring :=
  L "Graphically displays the folder structure of a drive or path." ++ LF ++ LF ++
  L "TREE [drive:][path] [/F] [/A]" ++ LF ++ LF ++
  L "   /F   Display the names of the files in each folder." ++ LF ++
  L "   /A   Use ASCII instead of extended characters." ++ LF ++ LF.

Definition PrintUsage : io unit := emit (Stderr usage).

(** How the command line loop is left: by a [return], or at its end. *)
Inductive parsed :=
| Exit (status : Z)
| Parsed (g : globals) (specifiedPath : wstring).

Section Main.

Variable FindFirstFile : wstring -> option (WIN32_FIND_DATA * list WIN32_FIND_DATA).
Variable stale : wstring -> WIN32_FIND_DATA.

(** The rest of the host: [_wfullpath], the volume name and serial number
    [GetVolumeInformation] reports, [CharUpper], [SetCurrentDirectory]
    (the directory [GetCurrentDirectory] gives afterwards, or failure),
    the current directory at startup and [_getdrive]. *)
Variable wfullpath : wstring -> wstring.
Variable dwName : wstring.
Variable dwSerial : Z.
Variable CharUpper : wstring -> wstring.
Variable SetCurrentDirectory : wstring -> option wstring.
Variable GetCurrentDirectory : wstring.
Variable getdrive : Z.

(** [for (i = 1; i < argc; ++i)] over the arguments still to read. *)
Fixpoint parse_args (args : list wstring) (g : globals)
    (specifiedPath : wstring) : io parsed :=
  match args with
  | [] => ret (Parsed g specifiedPath)
  | arg :: args' =>
      if (nth 0 arg 0 =? wc "-") || (nth 0 arg 0 =? wc "/") then
        let c := towlower (nth 1 arg 0) in
        if c =? wc "?" then
          PrintUsage ;;; ret (Exit 0)
        else if c =? wc "f" then
          parse_args args' (mkGlobals true (bUseAscii g) (bSetPath g)) specifiedPath
        else if c =? wc "a" then
          parse_args args' (mkGlobals (bShowFiles g) true (bSetPath g)) specifiedPath
        else
          parse_args args' g specifiedPath
      else
        if negb (bSetPath g) then
          parse_args args' (mkGlobals (bShowFiles g) (bUseAscii g) true)
            (wfullpath arg)
        else
          emit (Stderr (L "Too many parameters - " ++ arg ++ LF ++ LF)) ;;;
          ret (Exit 0)
  end.

(** From [GetCurrentDirectory] to the end of [wmain]. *)
Definition walk (fuel : nat) (g : globals) (strPath : wstring) : io Z :=
  GetDirectoryStructure FindFirstFile stale fuel g strPath 1 (L "          ") ;;;
  has <- HasSubFolder FindFirstFile stale strPath ;;
  (if negb has then emit (Stderr (L "No subfolders exist" ++ LF ++ LF))
   else ret tt) ;;;
  ret 0.

Definition wmain (fuel : nat) (argv : list wstring) : io Z :=
  p <- parse_args (tl argv) (mkGlobals false false false) [] ;;
  match p with
  | Exit status => ret status
  | Parsed g specifiedPath =>
      emit (Stdout (L "Folder PATH listing for volume " ++ dwName ++ LF)) ;;;
      emit (Stdout (L "Volume serial number is " ++
                    fmt_X (Z.shiftr dwSerial 16) ++ L "-" ++
                    fmt_X (Z.land dwSerial 0xffff) ++ LF)) ;;;
      if bSetPath g then
        let specifiedPath := CharUpper specifiedPath in
        emit (Stdout (specifiedPath ++ LF)) ;;;
        match SetCurrentDirectory specifiedPath with
        | None =>
            emit (Stderr (L "Invalid path - " ++
                          fmt_s (wcschr specifiedPath (wc "\")) ++ LF)) ;;;
            emit (Stderr (L "No subfolders exist" ++ LF ++ LF)) ;;;
            ret 0
        | Some strPath => walk fuel g strPath
        end
      else
        emit (Stdout ([(getdrive + wc "A" - 1) mod 65536] ++ L ":." ++ LF)) ;;;
        walk fuel g GetCurrentDirectory
  end.

End Main.

(** ** Notions the properties are stated with *)

(** The one code unit the loop appends for the character above it. *)
Definition glyph (ascii : bool) (c : wchar_t) : wchar_t :=
  if is_continuation c then (if ascii then wc "|" else u2502) else wc " ".

(** The columns [j .. j + n - 1] of the prefix under [prevLine]. *)
Definition prefix_of (ascii : bool) (prevLine : wstring) (n j : nat) : wstring :=
  map (fun k => glyph ascii (nth k prevLine 0)) (seq j n).

(** The connector of a folder line and the lead of a file line. *)
Definition connector (ascii last : bool) : wstring :=
  if last then (if ascii then L "\---" else [u2514; u2500; u2500; u2500])
  else (if ascii then L "+---" else [u251c; u2500; u2500; u2500]).

Definition file_lead (ascii bHasSubFolder : bool) : wstring :=
  if bHasSubFolder then (if ascii then L "|   " else u2502 :: L "   ")
  else L "     ".

(** A name as [cFileName], an array of [MAX_PATH] code units, can hold it. *)
Definition fits (name : wstring) : Prop := (length name < MAX_PATH)%nat.

(** An entry that counts as a subfolder. *)
Definition is_subfolder (e : WIN32_FIND_DATA) : bool :=
  is_directory e && negb (is_dots e).

Section ProbeAnswer.

Variable FindFirstFile : wstring -> option (WIN32_FIND_DATA * list WIN32_FIND_DATA).
Variable stale : wstring -> WIN32_FIND_DATA.

(** What the probe answers once its search pattern is built. *)
Definition probe_answer (strPath : wstring) : bool :=
  match FindFirstFile (strPath ++ L "\*.") with
  | Some (FindFileData, next) => HasSubFolder_scan FindFileData next
  | None => HasSubFolder_scan (stale strPath) []
  end.

End ProbeAnswer.

(** An entry that goes to the file array. *)
Definition is_file (e : WIN32_FIND_DATA) : bool := negb (is_directory e).

(** The previous lines the program renders under.  [wmain] starts the
    traversal with width 1 under ten spaces; [GetDirectoryStructure] hands
    its width and previous line to [DrawTree] as they are; [DrawTree] hands
    the line of a folder, four columns further, to the traversal of that
    folder. *)
Inductive rendered_under (ascii : bool) : Z -> wstring -> Prop :=
| under_wmain : rendered_under ascii 1 (L "          ")
| under_folder width prevLine bHasSubFolder szArr i name consoleOut :
    rendered_under ascii width prevLine ->
    console_line ascii true bHasSubFolder szArr width prevLine i name
    = Some consoleOut ->
    rendered_under ascii ((width + 4) mod UINT_MAX1) consoleOut.

(** The continuation glyph of the mode. *)
Definition bar (ascii : bool) : wchar_t := if ascii then wc "|" else u2502.




(** The substitution that turns the Unicode glyphs into the ASCII ones,
    on a character and on what a trace writes to the standard output. *)
Definition to_ascii (c : wchar_t) : wchar_t :=
  if c =? u251c then wc "+"
  else if c =? u2500 then wc "-"
  else if c =? u2514 then wc "\"
  else if c =? u2502 then wc "|"
  else c.

Definition substitute (t : list event) : list event :=
  map (fun e => match e with
                | Stdout text => Stdout (map to_ascii text)
                | _ => e
                end) t.

Definition substituted {A} (r : io A) : io A := (substitute (fst r), snd r).

(** A name without box-drawing characters, and a host all of whose names
    are such. *)
Definition box_drawing : list wchar_t := [u251c; u2500; u2514; u2502].

Definition plain (name : wstring) : Prop :=
  forall c, In c name -> ~ In c box_drawing.

Definition plain_host
    (FindFirstFile : wstring -> option (WIN32_FIND_DATA * list WIN32_FIND_DATA))
    : Prop :=
  forall pattern FindFileData next,
    FindFirstFile pattern = Some (FindFileData, next) ->
    Forall (fun e => plain (cFileName e)) (FindFileData :: next).

(** Two previous lines the loop reads alike. *)
Definition read_alike (width : Z) (pA pU : wstring) : Prop :=
  forall j, (j < columns width)%nat ->
    is_continuation (nth j pA 0) = is_continuation (nth j pU 0).

(** ** A small host to run the program on

    [C:\R] holds the file [f.txt] and the folders [a] and [b]; [a] holds
    the folder [x], which is empty; [b] cannot be opened.  Both searches of
    a folder see the same entries. *)

Definition FILE_ATTRIBUTE_ARCHIVE : Z := 0x20.
Definition FILE_ATTRIBUTE_HIDDEN : Z := 0x2.
Definition FILE_ATTRIBUTE_SYSTEM : Z := 0x4.

Definition folder (name : string) : WIN32_FIND_DATA :=
  mkFindData FILE_ATTRIBUTE_DIRECTORY (L name).
Definition file (name : string) : WIN32_FIND_DATA :=
  mkFindData FILE_ATTRIBUTE_ARCHIVE (L name).

(** A host given by the table of its folders. *)
Fixpoint lookup (table : list (wstring * list WIN32_FIND_DATA)) (dir : wstring)
    : option (list WIN32_FIND_DATA) :=
  match table with
  | [] => None
  | (d, entries) :: table' => if wcs_eqb d dir then Some entries else lookup table' dir
  end.

Definition strip (suffix pattern : wstring) : option wstring :=
  let n := (length pattern - length suffix)%nat in
  if wcs_eqb (skipn n pattern) suffix then Some (firstn n pattern) else None.

Definition host (table : list (wstring * list WIN32_FIND_DATA)) (pattern : wstring)
    : option (WIN32_FIND_DATA * list WIN32_FIND_DATA) :=
  let dir := match strip (L "\*.*") pattern with
             | Some d => Some d
             | None => strip (L "\*.") pattern
             end in
  match dir with
  | Some d => match lookup table d with
              | Some (e :: es) => Some (e, es)
              | _ => None
              end
  | None => None
  end.

Definition sample_table : list (wstring * list WIN32_FIND_DATA) :=
  [ (L "C:\R", [folder "."; folder ".."; file "f.txt"; folder "a"; folder "b"]);
    (L "C:\R\a", [folder "."; folder ".."; folder "x"]);
    (L "C:\R\a\x", [folder "."; folder ".."]) ].

Definition sample : wstring -> option (WIN32_FIND_DATA * list WIN32_FIND_DATA) :=
  host sample_table.

Definition zeroed : wstring -> WIN32_FIND_DATA := fun _ => mkFindData 0 [].

Definition show (t : list event) : list wstring :=
  flat_map (fun e => match e with Stdout s => [s] | _ => [] end) t.

(** The flags of [TREE], of [TREE /A], of [TREE /F] and of [TREE /F /A]. *)
Definition flags_U : globals := mkGlobals false false false.
Definition flags_A : globals := mkGlobals false true false.
Definition flags_F : globals := mkGlobals true false false.
Definition flags_FA : globals := mkGlobals true true false.

(** The traversal of the sample host, with a budget that is ample for it. *)
Definition sample_walk (g : globals) : wstring -> Z -> wstring -> io unit :=
  GetDirectoryStructure sample zeroed 5 g.

(** What the error stream received. *)
Definition errors (t : list event) : list wstring :=
  flat_map (fun e => match e with Stderr s => [s] | _ => [] end) t.

(** A host on which no search opens, and a find buffer that still holds the
    directory entry [x] of an earlier search. *)
Definition closed : wstring -> option (WIN32_FIND_DATA * list WIN32_FIND_DATA) :=
  fun _ => None.

Definition leftover : wstring -> WIN32_FIND_DATA := fun _ => folder "x".

(** [wmain] on the sample host: volume [DATA], paths already absolute and
    in upper case, [C:\R] the only directory that can be made current, and
    the current one at startup, on drive 3. *)
Definition sample_chdir (dir : wstring) : option wstring :=
  if wcs_eqb dir (L "C:\R") then Some dir else None.

Definition sample_main : list wstring -> io Z :=
  wmain sample zeroed (fun p => p) (L "DATA") 0x1234ABCD (fun p => p)
    sample_chdir (L "C:\R") 3 5.

(** The arguments of the command line, as the loop of [wmain] tells them
    apart: a switch starts with [-] or [/]; it is unsupported when what
    follows is none of [?], [F] and [A], in either case. *)
Definition is_switch (arg : wstring) : bool :=
  (nth 0 arg 0 =? wc "-") || (nth 0 arg 0 =? wc "/").

Definition is_help (arg : wstring) : bool :=
  is_switch arg && (towlower (nth 1 arg 0) =? wc "?").

Definition is_unsupported (arg : wstring) : bool :=
  is_switch arg
  && negb (towlower (nth 1 arg 0) =? wc "?")
  && negb (towlower (nth 1 arg 0) =? wc "f")
  && negb (towlower (nth 1 arg 0) =? wc "a").

(** A host whose only folder is named with one horizontal bar. *)
Definition boxed : wstring -> option (WIN32_FIND_DATA * list WIN32_FIND_DATA) :=
  host [ (L "C:\R", [mkFindData FILE_ATTRIBUTE_DIRECTORY [u2500]]) ].

(** What the standard output received. *)
Definition written {A} (r : io A) : list wstring := show (fst r).

(** ** Further notions *)

(** What a traversal may do to the outside: start searches and write lines,
    each within [STR_MAX] code units with its terminator; it never writes
    to the error stream. *)
Definition within_buffers (e : event) : Prop :=
  match e with
  | FindFirst pattern => (length pattern + 1 <= STR_MAX)%nat
  | Stdout text => exists line, text = line ++ LF /\ (length line + 1 <= STR_MAX)%nat
  | Stderr _ => False
  end.

(** The switches [/F] and [/A]: only the character after the [-] or [/]
    is looked at, in either case. *)
Definition is_F (arg : wstring) : bool :=
  is_switch arg && (towlower (nth 1 arg 0) =? wc "f").

Definition is_A (arg : wstring) : bool :=
  is_switch arg && (towlower (nth 1 arg 0) =? wc "a").

(** The flags a list of switches leaves set. *)
Definition flags_of (switches : list wstring) (set_path : bool) : globals :=
  mkGlobals (existsb is_F switches) (existsb is_A switches) set_path.

(** The subfolders a search yields, if it opens. *)
Definition folders_of
    (FindFirstFile : wstring -> option (WIN32_FIND_DATA * list WIN32_FIND_DATA))
    (pattern : wstring) : option (list WIN32_FIND_DATA) :=
  match FindFirstFile pattern with
  | Some (FindFileData, next) => Some (filter is_subfolder (FindFileData :: next))
  | None => None
  end.

(** A host that keeps to [MAX_PATH]: no search opens on a pattern that does
    not fit [MAX_PATH] code units, and every name found fits [cFileName]. *)
Definition keeps_MAX_PATH
    (FindFirstFile : wstring -> option (WIN32_FIND_DATA * list WIN32_FIND_DATA))
    : Prop :=
  forall pattern FindFileData next,
    FindFirstFile pattern = Some (FindFileData, next) ->
    (length pattern < MAX_PATH)%nat
    /\ Forall (fun e => fits (cFileName e)) (FindFileData :: next).

(** The banner of [wmain]. *)
Definition banner (dwName : wstring) (dwSerial : Z) : list event :=
  [ Stdout (L "Folder PATH listing for volume " ++ dwName ++ LF);
    Stdout (L "Volume serial number is " ++ fmt_X (Z.shiftr dwSerial 16) ++ L "-"
            ++ fmt_X (Z.land dwSerial 0xffff) ++ LF) ].

(** The sample host with other files: none in [C:\R], two further down. *)
Definition other_files : wstring -> option (WIN32_FIND_DATA * list WIN32_FIND_DATA) :=
  host [ (L "C:\R", [folder "."; folder ".."; folder "a"; folder "b"]);
         (L "C:\R\a", [file "read.me"; folder "."; folder ".."; folder "x"]);
         (L "C:\R\a\x", [folder "."; folder ".."; file "deep.txt"]) ].

(** What drawing a list of folders comes to: for each folder its line,
    then the traversal of its path under that line, one after the other. *)
Fixpoint enter_folders (recurse : wstring -> Z -> wstring -> io unit) (width : Z)
    (calls : list (wstring * wstring)) : io unit :=
  match calls with
  | [] => ret tt
  | (line, str) :: calls' =>
      emit (Stdout (line ++ LF)) ;;;
      recurse str width line ;;;
      enter_folders recurse width calls'
  end.

(** The line and the path of each folder of a list of [szArr], from index
    [i] on. *)
Definition folder_calls (ascii : bool) (strPath : wstring) (szArr : nat)
    (width : Z) (prevLine : wstring) (i : nat) (arr : list WIN32_FIND_DATA)
    : list (wstring * wstring) :=
  map (fun ie : nat * WIN32_FIND_DATA =>
         (prefix_of ascii prevLine (columns width) 0
          ++ connector ascii (szArr - 1 =? fst ie)%nat ++ cFileName (snd ie),
          strPath ++ L "\" ++ cFileName (snd ie)))
    (combine (seq i (length arr)) arr).

(** The line of a file. *)
Definition file_line (ascii bHasSubFolder : bool) (width : Z) (prevLine : wstring)
    (e : WIN32_FIND_DATA) : event :=
  Stdout (prefix_of ascii prevLine (columns width) 0
          ++ file_lead ascii bHasSubFolder ++ cFileName e ++ LF).
(** * Properties *)

(** ** The monad *)

Lemma bind_ret {A B} (a : A) (k : A -> io B) : bind (ret a) k = k a.
Proof. unfold bind, ret. destruct (k a); reflexivity. Qed.

Lemma bind_emit {B} (e : event) (k : unit -> io B) :
  bind (emit e) k = (e :: fst (k tt), snd (k tt)).
Proof. unfold bind, emit. destruct (k tt); reflexivity. Qed.

Lemma bind_ret_trace {A B} (t : list event) (a : A) (k : A -> io B) :
  bind (t, Value a) k = (t ++ fst (k a), snd (k a)).
Proof. unfold bind. destruct (k a); reflexivity. Qed.

Lemma bind_assoc {A B C} (m : io A) (k : A -> io B) (h : B -> io C) :
  bind (bind m k) h = bind m (fun a => bind (k a) h).
Proof.
  destruct m as [t [a| |]]; simpl; try reflexivity.
  destruct (k a) as [t1 [b| |]]; simpl; try reflexivity.
  destruct (h b) as [t2 o]. now rewrite app_assoc.
Qed.

Lemma bind_ext {A B} (m : io A) (k k' : A -> io B) :
  (forall a, k a = k' a) -> bind m k = bind m k'.
Proof. intros H. destruct m as [t [a| |]]; simpl; try reflexivity. now rewrite H. Qed.

Lemma bind_value {A B} (m : io A) (k : A -> io B) t b :
  bind m k = (t, Value b) ->
  exists t1 a t2, m = (t1, Value a) /\ k a = (t2, Value b) /\ t = t1 ++ t2.
Proof.
  destruct m as [t1 [a| |]]; simpl; try discriminate.
  destruct (k a) as [t2 o] eqn:E. intros H. inversion H; subst.
  now exists t1, a, t2.
Qed.

Lemma bind_fst {A B} (m : io A) (k : A -> io B) a :
  snd m = Value a -> bind m k = (fst m ++ fst (k a), snd (k a)).
Proof.
  destruct m as [t o]; simpl; intros ->. now destruct (k a).
Qed.


(** ** Strings and buffers *)

Lemma STR_MAX_eq : STR_MAX = 2048%nat.
Proof. reflexivity. Qed.

Lemma MAX_PATH_eq : MAX_PATH = 260%nat.
Proof. reflexivity. Qed.

Lemma wcs_eqb_eq a b : wcs_eqb a b = true <-> a = b.
Proof. unfold wcs_eqb. destruct (list_eq_dec Z.eq_dec a b); split; congruence. Qed.

Lemma wcscat_s_some dest n src r :
  wcscat_s dest n src = Some r ->
  r = dest ++ src /\ (length dest + length src + 1 <= n)%nat.
Proof.
  unfold wcscat_s. destruct (Nat.leb_spec (length dest + length src + 1) n);
    intros E; inversion E; auto.
Qed.

Lemma wcscat_s_fits dest n src :
  (length dest + length src + 1 <= n)%nat -> wcscat_s dest n src = Some (dest ++ src).
Proof.
  unfold wcscat_s. intros H. apply Nat.leb_le in H. now rewrite H.
Qed.


(** ** The indentation loop *)

Lemma column_glyph ascii c : column ascii c = [glyph ascii c].
Proof. unfold column, glyph. destruct (is_continuation c), ascii; reflexivity. Qed.

Lemma prefix_of_length ascii p n j : length (prefix_of ascii p n j) = n.
Proof. unfold prefix_of. now rewrite length_map, length_seq. Qed.

Lemma prefix_of_nth ascii p n j k :
  (k < n)%nat -> nth k (prefix_of ascii p n j) 0 = glyph ascii (nth (j + k) p 0).
Proof.
  intros H. unfold prefix_of.
  rewrite nth_indep with (d' := glyph ascii (nth 0%nat p 0))
    by now rewrite length_map, length_seq.
  rewrite (map_nth (fun k => glyph ascii (nth k p 0))).
  now rewrite seq_nth.
Qed.

Lemma indent_some ascii p n : forall j out r,
  indent ascii p n j out = Some r ->
  r = out ++ prefix_of ascii p n j /\ (n = 0%nat \/ (length out + n + 1 <= STR_MAX)%nat).
Proof.
  induction n as [|n IH]; intros j out r; simpl.
  - intros H; inversion H; subst. unfold prefix_of; simpl. rewrite app_nil_r. auto.
  - destruct (wcscat_s out STR_MAX (column ascii (nth j p 0))) as [out'|] eqn:E;
      try discriminate.
    apply wcscat_s_some in E. destruct E as [-> Hlen].
    rewrite column_glyph in *. simpl in Hlen.
    intros H. apply IH in H. destruct H as [-> Hn]. split.
    + unfold prefix_of. simpl. now rewrite <- app_assoc.
    + right. rewrite length_app in Hn. simpl in Hn. lia.
Qed.

Lemma indent_fits ascii p n : forall j out,
  (n = 0%nat \/ (length out + n + 1 <= STR_MAX)%nat) ->
  indent ascii p n j out = Some (out ++ prefix_of ascii p n j).
Proof.
  induction n as [|n IH]; intros j out H; simpl.
  - unfold prefix_of; simpl. now rewrite app_nil_r.
  - destruct H as [H|H]; [discriminate|].
    rewrite column_glyph, wcscat_s_fits by (simpl; lia).
    rewrite IH by (right; rewrite length_app; simpl; lia).
    unfold prefix_of. simpl. now rewrite <- app_assoc.
Qed.


(** ** The line of one entry *)

Lemma segment_folder ascii has n i name :
  segment ascii true has n i name = connector ascii (n - 1 =? i)%nat ++ name.
Proof.
  unfold segment, connector. destruct (n - 1 =? i)%nat, ascii; reflexivity.
Qed.

Lemma segment_file ascii has n i name :
  segment ascii false has n i name = file_lead ascii has ++ name.
Proof.
  unfold segment, file_lead. destruct (n - 1 =? i)%nat, has, ascii; reflexivity.
Qed.

Lemma connector_length ascii last : length (connector ascii last) = 4%nat.
Proof. destruct ascii, last; reflexivity. Qed.

Lemma file_lead_length ascii has : (length (file_lead ascii has) <= 5)%nat.
Proof. destruct ascii, has; simpl; lia. Qed.

Lemma segment_length ascii df has n i name :
  (length (segment ascii df has n i name) <= 5 + length name)%nat.
Proof.
  destruct df.
  - rewrite segment_folder, length_app, connector_length. lia.
  - rewrite segment_file, length_app. pose proof (file_lead_length ascii has). lia.
Qed.

Lemma StringCchPrintf_fits n s :
  (length s < n)%nat -> StringCchPrintf n s = s.
Proof. intros H. unfold StringCchPrintf. apply firstn_all2. lia. Qed.

Lemma StringCchPrintf_segment ascii df has n i name :
  fits name ->
  StringCchPrintf STR_MAX (segment ascii df has n i name)
  = segment ascii df has n i name.
Proof.
  intros H. apply StringCchPrintf_fits.
  pose proof (segment_length ascii df has n i name).
  unfold fits in H. rewrite MAX_PATH_eq in H. rewrite STR_MAX_eq. lia.
Qed.

Lemma console_line_some ascii df has n w p i name line :
  console_line ascii df has n w p i name = Some line ->
  line = prefix_of ascii p (columns w) 0
         ++ StringCchPrintf STR_MAX (segment ascii df has n i name)
  /\ (length line + 1 <= STR_MAX)%nat.
Proof.
  unfold console_line.
  destruct (indent ascii p (columns w) 0 []) as [out|] eqn:E; try discriminate.
  apply indent_some in E. destruct E as [-> _]. simpl.
  intros H. apply wcscat_s_some in H. destruct H as [-> H]. split; auto.
  rewrite length_app. lia.
Qed.

Lemma console_line_fits ascii df has n w p i name :
  (columns w + length (StringCchPrintf STR_MAX (segment ascii df has n i name)) + 1
   <= STR_MAX)%nat ->
  console_line ascii df has n w p i name
  = Some (prefix_of ascii p (columns w) 0
          ++ StringCchPrintf STR_MAX (segment ascii df has n i name)).
Proof.
  intros H. unfold console_line.
  rewrite indent_fits by (right; simpl; lia). simpl.
  apply wcscat_s_fits. rewrite prefix_of_length. lia.
Qed.

Lemma child_path_some strPath name s :
  child_path strPath name = Some s ->
  s = strPath ++ L "\" ++ name /\ (length s + 1 <= STR_MAX)%nat.
Proof.
  unfold child_path.
  destruct (wcscat_s [] STR_MAX strPath) as [a|] eqn:Ea; try discriminate.
  apply wcscat_s_some in Ea. destruct Ea as [-> _].
  destruct (wcscat_s ([] ++ strPath) STR_MAX (L "\")) as [b|] eqn:Eb; try discriminate.
  apply wcscat_s_some in Eb. destruct Eb as [-> _].
  intros H. apply wcscat_s_some in H. destruct H as [-> H]. simpl in *.
  rewrite <- app_assoc. split; auto. rewrite !length_app in *. simpl in *. lia.
Qed.

Lemma child_path_fits strPath name :
  (length strPath + 1 + length name + 1 <= STR_MAX)%nat ->
  child_path strPath name = Some (strPath ++ L "\" ++ name).
Proof.
  intros H. unfold child_path.
  rewrite wcscat_s_fits by (simpl; lia). simpl.
  rewrite wcscat_s_fits by (simpl; lia).
  rewrite wcscat_s_fits by (rewrite length_app; simpl; lia).
  now rewrite <- app_assoc.
Qed.

(** ** The loop of DrawTree *)

Section Loop.

Variable recurse : wstring -> Z -> wstring -> io unit.
Variable g : globals.
Variable strPath : wstring.
Variable szArr : nat.
Variable width : Z.
Variable prevLine : wstring.
Variable bHasSubFolder : bool.

Let loop df := DrawTree_loop recurse g strPath szArr width prevLine df bHasSubFolder.

(** The loop over a list in two parts is the loop over the first part,
    then the loop over the second from the index it starts at. *)
Lemma DrawTree_loop_app df : forall pre i post,
  loop df i (pre ++ post) = (loop df i pre ;;; loop df (i + length pre) post).
Proof.
  induction pre as [|e pre IH]; intros i post; subst loop.
  - cbn [app length DrawTree_loop]. now rewrite bind_ret, Nat.add_0_r.
  - cbn [app length DrawTree_loop] in *. rewrite bind_assoc.
    apply bind_ext; intros consoleOut. rewrite bind_assoc.
    apply bind_ext; intros _. rewrite bind_assoc.
    apply bind_ext; intros _. rewrite IH.
    now replace (S i + length pre)%nat with (i + S (length pre))%nat by lia.
Qed.

End Loop.

(** ** HasSubFolder *)

Lemma HasSubFolder_scan_existsb : forall next FindFileData,
  HasSubFolder_scan FindFileData next = existsb is_subfolder (FindFileData :: next).
Proof.
  induction next as [|d next IH]; intros e; simpl; unfold is_subfolder at 1.
  - destruct (is_directory e && negb (is_dots e)); reflexivity.
  - rewrite IH. destruct (is_directory e && negb (is_dots e)); reflexivity.
Qed.

Section Probe.

Variable FindFirstFile : wstring -> option (WIN32_FIND_DATA * list WIN32_FIND_DATA).
Variable stale : wstring -> WIN32_FIND_DATA.

Lemma HasSubFolder_fits strPath :
  (length strPath + 4 <= STR_MAX)%nat ->
  HasSubFolder FindFirstFile stale strPath
  = ([FindFirst (strPath ++ L "\*.")], Value (probe_answer FindFirstFile stale strPath)).
Proof.
  intros H. unfold HasSubFolder, probe_answer.
  rewrite wcscat_s_fits by (simpl; lia). cbn [checked]. rewrite bind_ret.
  rewrite wcscat_s_fits by (simpl; lia). cbn [checked]. rewrite bind_ret.
  rewrite bind_emit. simpl.
  destruct (FindFirstFile (strPath ++ L "\*.")) as [[d next]|]; reflexivity.
Qed.

Lemma HasSubFolder_overflow strPath :
  (STR_MAX < length strPath + 4)%nat ->
  HasSubFolder FindFirstFile stale strPath = ([], InvalidParameter).
Proof.
  intros H. unfold HasSubFolder.
  destruct (wcscat_s [] STR_MAX strPath) as [a|] eqn:Ea; [|reflexivity].
  apply wcscat_s_some in Ea. destruct Ea as [-> Ha].
  cbn [checked app]. rewrite bind_ret.
  destruct (wcscat_s strPath STR_MAX (L "\*.")) as [b|] eqn:Eb; [|reflexivity].
  apply wcscat_s_some in Eb. simpl in Eb. lia.
Qed.

Lemma HasSubFolder_value strPath t b :
  HasSubFolder FindFirstFile stale strPath = (t, Value b) ->
  (length strPath + 4 <= STR_MAX)%nat
  /\ t = [FindFirst (strPath ++ L "\*.")] /\ b = probe_answer FindFirstFile stale strPath.
Proof.
  intros H.
  destruct (Nat.le_gt_cases (length strPath + 4) STR_MAX) as [Hle|Hgt].
  - rewrite HasSubFolder_fits in H by assumption. inversion H; auto.
  - rewrite HasSubFolder_overflow in H by assumption. discriminate.
Qed.

(** X1. When the search opens, the probe answers [true] exactly when one of
    the entries found is a directory other than [.] and [..], whatever the
    find buffer held before. *)
Lemma HasSubFolder_opened strPath FindFileData next :
  (length strPath + 4 <= STR_MAX)%nat ->
  FindFirstFile (strPath ++ L "\*.") = Some (FindFileData, next) ->
  exists b,
    HasSubFolder FindFirstFile stale strPath
    = ([FindFirst (strPath ++ L "\*.")], Value b)
    /\ (b = true <->
        exists e, In e (FindFileData :: next) /\ is_directory e = true
                  /\ cFileName e <> L "." /\ cFileName e <> L "..").
Proof.
  intros Hfit Hfs. exists (probe_answer FindFirstFile stale strPath). split.
  - now apply HasSubFolder_fits.
  - unfold probe_answer. rewrite Hfs, HasSubFolder_scan_existsb, existsb_exists.
    split; intros [e [Hin He]]; exists e; split; auto.
    + unfold is_subfolder, is_dots in He.
      apply andb_true_iff in He. destruct He as [Hd Hn].
      apply negb_true_iff, orb_false_iff in Hn. destruct Hn as [H1 H2].
      repeat split; auto; intros E; rewrite E in *; discriminate.
    + destruct He as [Hd [H1 H2]]. unfold is_subfolder, is_dots.
      rewrite Hd. simpl. apply negb_true_iff, orb_false_iff.
      split; apply not_true_is_false; rewrite wcs_eqb_eq; assumption.
Qed.

End Probe.

(** ** Reading a finished run backwards *)

Lemma checked_value {A} (o : option A) t a :
  checked o = (t, Value a) -> o = Some a /\ t = [].
Proof. destruct o; simpl; intros H; inversion H; auto. Qed.

Lemma emit_value e t u : emit e = (t, Value u) -> t = [e].
Proof. unfold emit. intros H. now inversion H. Qed.

Lemma ret_value {A} (a b : A) t : ret a = (t, Value b) -> t = [] /\ a = b.
Proof. unfold ret. intros H. now inversion H. Qed.

Tactic Notation "bind_inv" hyp(H) "as" ident(t1) ident(a) ident(t2) ident(H1) :=
  apply bind_value in H; destruct H as (t1 & a & t2 & H1 & H & ->).

(** The run of the loop body on one entry, taken apart. *)
Lemma DrawTree_loop_cons recurse g strPath szArr width prevLine df has i entry arr t :
  DrawTree_loop recurse g strPath szArr width prevLine df has i (entry :: arr)
  = (t, Value tt) ->
  exists line t_sub t_rest,
    console_line (bUseAscii g) df has szArr width prevLine i (cFileName entry)
    = Some line
    /\ (if df then
          exists child,
            child_path strPath (cFileName entry) = Some child
            /\ recurse child ((width + 4) mod UINT_MAX1) line = (t_sub, Value tt)
        else t_sub = [])
    /\ DrawTree_loop recurse g strPath szArr width prevLine df has (S i) arr
       = (t_rest, Value tt)
    /\ t = Stdout (line ++ LF) :: t_sub ++ t_rest.
Proof.
  cbn [DrawTree_loop]. intros H.
  bind_inv H as t0 line t1 Hline.
  apply checked_value in Hline. destruct Hline as [Hline ->].
  bind_inv H as t2 u t3 Hemit. apply emit_value in Hemit. subst t2.
  bind_inv H as t_sub v t_rest Hsub.
  exists line, t_sub, t_rest. split; [assumption|]. split.
  - destruct df.
    + bind_inv Hsub as t4 child t5 Hchild.
      apply checked_value in Hchild. destruct Hchild as [Hchild ->].
      exists child. destruct v. split; assumption.
    + apply ret_value in Hsub. tauto.
  - split; [assumption | reflexivity].
Qed.

(** ** Folder lines *)

(** C1. In a sibling list drawn with folder kind, the entry at index [i] of
    [n] is printed as the indentation prefix, then the branch connector
    followed by its name when [i < n - 1], and the last-branch connector
    followed by its name when [i = n - 1], with the Unicode or the ASCII
    glyphs according to [bUseAscii]; the line stands in the output after
    the lines of the entries before it and before its own subtree. *)
Theorem folder_lines_connectors :
  forall FindFirstFile stale recurse g strPath pre entry post width prevLine t,
    fits (cFileName entry) ->
    DrawTree FindFirstFile stale recurse g strPath (pre ++ entry :: post)
      width prevLine true = (t, Value tt) ->
    let n := length (pre ++ entry :: post) in
    let i := length pre in
    let glyphs :=
      if (i <? n - 1)%nat
      then (if bUseAscii g then L "+---" else [u251c; u2500; u2500; u2500])
      else (if bUseAscii g then L "\---" else [u2514; u2500; u2500; u2500]) in
    exists has prefix child,
      let line := prefix ++ glyphs ++ cFileName entry in
      let loop := DrawTree_loop recurse g strPath n width prevLine true has in
      length prefix = columns width
      /\ child_path strPath (cFileName entry) = Some child
      /\ t = FindFirst (strPath ++ L "\*.")
             :: fst (loop 0%nat pre)
             ++ Stdout (line ++ LF)
                :: fst (recurse child ((width + 4) mod UINT_MAX1) line)
             ++ fst (loop (S i) post).
Proof.
  intros FS stale recurse g strPath pre entry post width prevLine t Hfit H n i glyphs.
  unfold DrawTree in H. bind_inv H as t0 has t1 Hprobe.
  apply HasSubFolder_value in Hprobe. destruct Hprobe as (_ & -> & _).
  fold n in H. rewrite DrawTree_loop_app in H.
  bind_inv H as t_pre u t2 Hpre. cbn [Nat.add] in H. fold i in H.
  apply DrawTree_loop_cons in H.
  destruct H as (line & t_sub & t_rest & Hline & (child & Hchild & Hsub) & Hrest & ->).
  apply console_line_some in Hline. destruct Hline as [Hline _].
  rewrite StringCchPrintf_segment, segment_folder in Hline by assumption.
  exists has, (prefix_of (bUseAscii g) prevLine (columns width) 0), child.
  cbv zeta. split; [apply prefix_of_length|]. split; [assumption|].
  assert (Hg : connector (bUseAscii g) (n - 1 =? i)%nat = glyphs).
  { subst glyphs. unfold connector.
    assert (Hn : n = (i + S (length post))%nat)
      by (subst n i; rewrite length_app; reflexivity).
    destruct (Nat.eqb_spec (n - 1) i), (Nat.ltb_spec i (n - 1)); try lia; reflexivity. }
  rewrite Hg in Hline. rewrite <- Hline, Hpre, Hsub, Hrest. reflexivity.
Qed.

Lemma folder_lines_connectors_witness :
  exists has prefix child,
    let line := prefix ++ L "+---" ++ L "a" in
    let loop := DrawTree_loop (sample_walk flags_A) flags_A (L "C:\R") 2 1
                  (L "          ") true has in
    length prefix = columns 1
    /\ child_path (L "C:\R") (L "a") = Some child
    /\ fst (DrawTree sample zeroed (sample_walk flags_A) flags_A (L "C:\R")
              ([] ++ folder "a" :: [folder "b"]) 1 (L "          ") true)
       = FindFirst (L "C:\R" ++ L "\*.")
         :: fst (loop 0%nat [])
         ++ Stdout (line ++ LF)
            :: fst (sample_walk flags_A child ((1 + 4) mod UINT_MAX1) line)
         ++ fst (loop 1%nat [folder "b"]).
Proof.
  apply (folder_lines_connectors sample zeroed (sample_walk flags_A) flags_A
           (L "C:\R") [] (folder "a") [folder "b"] 1 (L "          ")).
  - unfold fits, MAX_PATH. simpl. lia.
  - vm_compute. reflexivity.
Defined.

(** ** File lines *)

Section FileLoop.

Variable g : globals.
Variable strPath : wstring.
Variable szArr : nat.
Variable width : Z.
Variable prevLine : wstring.
Variable has : bool.

(** The loop over files never calls [GetDirectoryStructure]. *)
Lemma DrawTree_loop_files_recurse recurse recurse' : forall arr i,
  DrawTree_loop recurse g strPath szArr width prevLine false has i arr
  = DrawTree_loop recurse' g strPath szArr width prevLine false has i arr.
Proof.
  induction arr as [|e arr IH]; intros i; cbn [DrawTree_loop]; [reflexivity|].
  apply bind_ext; intros line. apply bind_ext; intros _.
  apply bind_ext; intros _. apply IH.
Qed.

Lemma DrawTree_loop_files recurse : forall arr i t,
  Forall (fun e => fits (cFileName e)) arr ->
  DrawTree_loop recurse g strPath szArr width prevLine false has i arr
  = (t, Value tt) ->
  t = map (fun e => Stdout (prefix_of (bUseAscii g) prevLine (columns width) 0
                            ++ file_lead (bUseAscii g) has ++ cFileName e ++ LF))
        arr.
Proof.
  induction arr as [|e arr IH]; intros i t Hfit H.
  - apply ret_value in H. now destruct H as [-> _].
  - inversion Hfit as [|? ? He Harr]; subst.
    apply DrawTree_loop_cons in H.
    destruct H as (line & t_sub & t_rest & Hline & -> & Hrest & ->).
    apply console_line_some in Hline. destruct Hline as [-> _].
    rewrite StringCchPrintf_segment, segment_file by assumption.
    cbn [map app]. rewrite (IH _ _ Harr Hrest), <- !app_assoc. reflexivity.
Qed.

End FileLoop.

(** The finished run of [DrawTree] over files: the probe, then one line
    for each entry. *)
Lemma DrawTree_files_value FindFirstFile stale recurse g strPath arrFile width
    prevLine t :
  Forall (fun e => fits (cFileName e)) arrFile ->
  DrawTree FindFirstFile stale recurse g strPath arrFile width prevLine false
  = (t, Value tt) ->
  exists has,
    HasSubFolder FindFirstFile stale strPath
    = ([FindFirst (strPath ++ L "\*.")], Value has)
    /\ t = FindFirst (strPath ++ L "\*.")
           :: map (fun e => Stdout (prefix_of (bUseAscii g) prevLine (columns width) 0
                                    ++ file_lead (bUseAscii g) has
                                    ++ cFileName e ++ LF)) arrFile.
Proof.
  intros Hfit H.
  unfold DrawTree in H. bind_inv H as t0 has t1 Hprobe.
  pose proof (HasSubFolder_value _ _ _ _ _ Hprobe) as (_ & -> & _).
  apply DrawTree_loop_files in H; [|assumption]. subst t1.
  exists has. split; [assumption | reflexivity].
Qed.

(** Drawing files returns, when the search pattern and the lines fit their
    buffers. *)
Lemma DrawTree_files_returns FindFirstFile stale recurse g strPath arrFile width
    prevLine :
  (length strPath + 4 <= STR_MAX)%nat ->
  (columns width + 5 + MAX_PATH <= STR_MAX)%nat ->
  Forall (fun e => fits (cFileName e)) arrFile ->
  exists t,
    DrawTree FindFirstFile stale recurse g strPath arrFile width prevLine false
    = (t, Value tt).
Proof.
  intros Hpath Hcol Hfit. unfold DrawTree.
  rewrite HasSubFolder_fits by assumption. rewrite bind_ret_trace.
  generalize (probe_answer FindFirstFile stale strPath) as has.
  generalize (length arrFile) as n. generalize 0%nat as i.
  induction Hfit as [|e arr He Harr IH]; intros i n has.
  - eexists. reflexivity.
  - cbn [DrawTree_loop].
    rewrite console_line_fits.
    + cbn [checked]. rewrite !bind_ret, bind_emit.
      destruct (IH (S i) n has) as [t Ht]. cbn [fst snd app] in *.
      inversion Ht as [[Ht1 Ht2]]. rewrite Ht2. eexists. reflexivity.
    + rewrite StringCchPrintf_segment by assumption.
      pose proof (segment_length (bUseAscii g) false has n i (cFileName e)).
      unfold fits in He. lia.
Qed.

(** C3. Every entry drawn with file kind, the last of its list like the
    others, is printed as the indentation prefix, then a vertical bar and
    three spaces when [HasSubFolder] answers true for the directory that
    holds the files, five spaces when it answers false, then the name. *)
Theorem file_lines_lead :
  forall FindFirstFile stale recurse g strPath arrFile width prevLine t,
    Forall (fun e => fits (cFileName e)) arrFile ->
    DrawTree FindFirstFile stale recurse g strPath arrFile width prevLine false
    = (t, Value tt) ->
    exists (has : bool) (prefix : wstring),
      let lead :=
        if has then (if bUseAscii g then L "|   " else u2502 :: L "   ")
        else L "     " in
      HasSubFolder FindFirstFile stale strPath
      = ([FindFirst (strPath ++ L "\*.")], Value has)
      /\ length prefix = columns width
      /\ t = FindFirst (strPath ++ L "\*.")
             :: map (fun e => Stdout (prefix ++ lead ++ cFileName e ++ LF)) arrFile.
Proof.
  intros FS stale recurse g strPath arr width prevLine t Hfit H.
  destruct (DrawTree_files_value _ _ _ _ _ _ _ _ _ Hfit H) as (has & Hprobe & ->).
  exists has, (prefix_of (bUseAscii g) prevLine (columns width) 0).
  cbv zeta. split; [assumption|]. split; [apply prefix_of_length|]. reflexivity.
Qed.

Lemma file_lines_lead_witness :
  exists (has : bool) (prefix : wstring),
    let lead := if has then L "|   " else L "     " in
    HasSubFolder sample zeroed (L "C:\R")
    = ([FindFirst (L "C:\R" ++ L "\*.")], Value has)
    /\ length prefix = columns 1
    /\ fst (DrawTree sample zeroed (sample_walk flags_FA) flags_FA (L "C:\R")
              [file "f.txt"; spacer] 1 (L "          ") false)
       = FindFirst (L "C:\R" ++ L "\*.")
         :: map (fun e => Stdout (prefix ++ lead ++ cFileName e ++ LF))
              [file "f.txt"; spacer].
Proof.
  apply (file_lines_lead sample zeroed (sample_walk flags_FA) flags_FA (L "C:\R")
           [file "f.txt"; spacer] 1 (L "          ")).
  - repeat constructor; unfold fits, MAX_PATH; simpl; lia.
  - vm_compute. reflexivity.
Defined.

(** ** The indentation prefix *)





Lemma columns_1 : columns 1 = 0%nat.
Proof. reflexivity. Qed.








(** The finished run of [DrawTree] around one entry of its list: what is
    written for the entries before, the line of the entry, what its own
    traversal does when it is drawn as a folder, and the entries after. *)
Lemma DrawTree_entry_value FindFirstFile stale recurse g strPath pre entry post
    width prevLine df t :
  DrawTree FindFirstFile stale recurse g strPath (pre ++ entry :: post)
    width prevLine df = (t, Value tt) ->
  exists has line t_sub,
    console_line (bUseAscii g) df has (length (pre ++ entry :: post)) width
      prevLine (length pre) (cFileName entry) = Some line
    /\ (if df then
          exists child,
            child_path strPath (cFileName entry) = Some child
            /\ recurse child ((width + 4) mod UINT_MAX1) line = (t_sub, Value tt)
        else t_sub = [])
    /\ t = FindFirst (strPath ++ L "\*.")
           :: fst (DrawTree_loop recurse g strPath (length (pre ++ entry :: post))
                     width prevLine df has 0 pre)
           ++ Stdout (line ++ LF)
              :: t_sub
           ++ fst (DrawTree_loop recurse g strPath (length (pre ++ entry :: post))
                     width prevLine df has (S (length pre)) post).
Proof.
  intros H. unfold DrawTree in H. bind_inv H as t0 has t1 Hprobe.
  apply HasSubFolder_value in Hprobe. destruct Hprobe as (_ & -> & _).
  rewrite DrawTree_loop_app in H.
  bind_inv H as t_pre u t2 Hpre. cbn [Nat.add] in H.
  apply DrawTree_loop_cons in H.
  destruct H as (line & t_sub & t_rest & Hline & Hsub & Hrest & ->).
  exists has, line, t_sub. split; [assumption|]. split; [assumption|].
  rewrite Hpre, Hrest. reflexivity.
Qed.



(** ** Sorting the entries found *)

Lemma collect_filter : forall found arrFolder arrFile,
  collect found arrFolder arrFile
  = (arrFolder ++ filter is_subfolder found, arrFile ++ filter is_file found).
Proof.
  induction found as [|e found IH]; intros F A; simpl.
  - now rewrite !app_nil_r.
  - unfold is_subfolder at 1, is_file at 1.
    destruct (is_directory e); simpl.
    + destruct (is_dots e); simpl; rewrite IH; [reflexivity|].
      now rewrite <- app_assoc.
    + rewrite IH. now rewrite <- app_assoc.
Qed.

Lemma is_file_iff e :
  is_file e = true <-> Z.land (dwFileAttributes e) FILE_ATTRIBUTE_DIRECTORY = 0.
Proof.
  unfold is_file, is_directory. rewrite negb_involutive. apply Z.eqb_eq.
Qed.

Lemma is_subfolder_iff e :
  is_subfolder e = true <->
  Z.land (dwFileAttributes e) FILE_ATTRIBUTE_DIRECTORY <> 0
  /\ cFileName e <> L "." /\ cFileName e <> L "..".
Proof.
  unfold is_subfolder, is_directory, is_dots.
  rewrite andb_true_iff, !negb_true_iff, orb_false_iff, Z.eqb_neq.
  rewrite <- !not_true_iff_false, !wcs_eqb_eq. tauto.
Qed.

(** ** GetDirectoryStructure, one level *)

Section Level.

Variable FindFirstFile : wstring -> option (WIN32_FIND_DATA * list WIN32_FIND_DATA).
Variable stale : wstring -> WIN32_FIND_DATA.
Variable g : globals.

Let GDS := GetDirectoryStructure FindFirstFile stale.
Let Draw fuel := DrawTree FindFirstFile stale (GDS fuel g) g.

Lemma GetDirectoryStructure_overflow fuel strPath width prevLine :
  (STR_MAX < length strPath + 5)%nat ->
  GDS (S fuel) g strPath width prevLine = ([], InvalidParameter).
Proof.
  intros H. subst GDS. cbn [GetDirectoryStructure].
  destruct (wcscat_s [] STR_MAX strPath) as [a|] eqn:Ea; [|reflexivity].
  apply wcscat_s_some in Ea. destruct Ea as [-> Ha].
  cbn [checked app]. rewrite bind_ret.
  destruct (wcscat_s strPath STR_MAX (L "\*.*")) as [b|] eqn:Eb; [|reflexivity].
  apply wcscat_s_some in Eb. simpl in Eb. lia.
Qed.

Lemma GetDirectoryStructure_search fuel strPath width prevLine :
  (length strPath + 5 <= STR_MAX)%nat ->
  GDS (S fuel) g strPath width prevLine
  = (emit (FindFirst (strPath ++ L "\*.*")) ;;;
     match FindFirstFile (strPath ++ L "\*.*") with
     | None => ret tt
     | Some (FindFileData, next) =>
         (if bShowFiles g then
            Draw fuel strPath (spoof (filter is_file (FindFileData :: next)))
              width prevLine false
          else ret tt) ;;;
         Draw fuel strPath (filter is_subfolder (FindFileData :: next))
           width prevLine true
     end).
Proof.
  intros H. subst GDS Draw. cbn [GetDirectoryStructure].
  rewrite wcscat_s_fits by (simpl; lia). cbn [checked app]. rewrite bind_ret.
  rewrite wcscat_s_fits by (simpl; lia). cbn [checked]. rewrite bind_ret.
  apply bind_ext; intros _.
  destruct (FindFirstFile (strPath ++ L "\*.*")) as [[d next]|]; [|reflexivity].
  rewrite collect_filter. reflexivity.
Qed.

Lemma GetDirectoryStructure_value fuel strPath width prevLine t :
  GDS fuel g strPath width prevLine = (t, Value tt) ->
  exists fuel', fuel = S fuel' /\ (length strPath + 5 <= STR_MAX)%nat.
Proof.
  destruct fuel as [|fuel]; [discriminate|]. intros H. exists fuel. split; auto.
  destruct (Nat.le_gt_cases (length strPath + 5) STR_MAX) as [Hle|Hgt]; auto.
  rewrite GetDirectoryStructure_overflow in H by assumption. discriminate.
Qed.

(** A directory that cannot be opened: the search is tried, and nothing
    else happens. *)
Lemma GetDirectoryStructure_closed fuel strPath width prevLine :
  (length strPath + 5 <= STR_MAX)%nat ->
  FindFirstFile (strPath ++ L "\*.*") = None ->
  GDS (S fuel) g strPath width prevLine
  = ([FindFirst (strPath ++ L "\*.*")], Value tt).
Proof.
  intros Hfit Hfs. rewrite GetDirectoryStructure_search by assumption.
  rewrite Hfs. reflexivity.
Qed.

End Level.

(** ** Files before folders *)

Lemma fits_spacer : fits (cFileName spacer).
Proof. unfold fits, MAX_PATH. simpl. lia. Qed.

Lemma spoof_fits arrFile :
  Forall (fun e => fits (cFileName e)) arrFile ->
  Forall (fun e => fits (cFileName e)) (spoof arrFile).
Proof.
  intros H. unfold spoof. destruct (0 <? length arrFile)%nat; [|assumption].
  apply Forall_app. split; [assumption|]. constructor; [apply fits_spacer|constructor].
Qed.

Lemma spoof_map {B} (f : WIN32_FIND_DATA -> B) arrFile :
  map f (spoof arrFile)
  = map f arrFile ++ match arrFile with [] => [] | _ :: _ => [f spacer] end.
Proof.
  unfold spoof. destruct arrFile as [|e arr]; [reflexivity|].
  cbn [length Nat.ltb Nat.leb]. now rewrite map_app.
Qed.

(** C4. With [bShowFiles] set, a directory level is written in this order:
    the lines of all files in the order of the enumeration; then, exactly
    when there is at least one file, the line of the spoofed entry, whose
    name is one blank; then the lines of the subdirectories, each with its
    subtree.  The order does not depend on the other flags. *)
Theorem files_before_folders :
  forall FindFirstFile stale fuel g strPath width prevLine FindFileData next t,
    bShowFiles g = true ->
    FindFirstFile (strPath ++ L "\*.*") = Some (FindFileData, next) ->
    Forall (fun e => fits (cFileName e)) (FindFileData :: next) ->
    GetDirectoryStructure FindFirstFile stale (S fuel) g strPath width prevLine
    = (t, Value tt) ->
    let found := FindFileData :: next in
    let files := filter (fun e => negb (is_directory e)) found in
    let folders := filter (fun e => is_directory e && negb (is_dots e)) found in
    exists (has : bool) (prefix : wstring),
      let lead :=
        if has then (if bUseAscii g then L "|   " else u2502 :: L "   ")
        else L "     " in
      let file_line name := Stdout (prefix ++ lead ++ name ++ LF) in
      length prefix = columns width
      /\ t = FindFirst (strPath ++ L "\*.*")
             :: FindFirst (strPath ++ L "\*.")
             :: map (fun e => file_line (cFileName e)) files
             ++ match files with [] => [] | _ :: _ => [file_line (L " ")] end
             ++ fst (DrawTree FindFirstFile stale
                       (GetDirectoryStructure FindFirstFile stale fuel g) g
                       strPath folders width prevLine true).
Proof.
  intros FS stale fuel g strPath w p d next t Hshow Hfs Hfit H found files folders.
  destruct (GetDirectoryStructure_value _ _ _ _ _ _ _ _ H) as (_ & _ & Hlen).
  rewrite GetDirectoryStructure_search in H by assumption.
  rewrite Hfs, Hshow in H.
  bind_inv H as t0 u t1 Hemit. apply emit_value in Hemit. subst t0.
  bind_inv H as t_files v t_folders Hfiles. destruct v.
  fold found in Hfiles, H. change (filter is_file found) with files in Hfiles.
  change (filter is_subfolder found) with folders in H.
  apply DrawTree_files_value in Hfiles.
  - destruct Hfiles as (has & _ & ->).
    exists has, (prefix_of (bUseAscii g) p (columns w) 0).
    cbv zeta. split; [apply prefix_of_length|].
    rewrite spoof_map, H. cbn [fst app]. rewrite <- !app_assoc. reflexivity.
  - apply spoof_fits. subst files. apply Forall_forall. intros e He.
    apply filter_In in He. rewrite Forall_forall in Hfit. apply Hfit, He.
Qed.

Lemma files_before_folders_witness :
  exists (has : bool) (prefix : wstring),
    let lead := if has then L "|   " else L "     " in
    let file_line name := Stdout (prefix ++ lead ++ name ++ LF) in
    length prefix = columns 1
    /\ fst (GetDirectoryStructure sample zeroed 5 flags_FA (L "C:\R") 1
              (L "          "))
       = FindFirst (L "C:\R" ++ L "\*.*")
         :: FindFirst (L "C:\R" ++ L "\*.")
         :: map (fun e => file_line (cFileName e)) [file "f.txt"]
         ++ [file_line (L " ")]
         ++ fst (DrawTree sample zeroed (GetDirectoryStructure sample zeroed 4 flags_FA)
                   flags_FA (L "C:\R") [folder "a"; folder "b"] 1
                   (L "          ") true).
Proof.
  apply (files_before_folders sample zeroed 4 flags_FA (L "C:\R") 1 (L "          ")
           (folder ".") [folder ".."; file "f.txt"; folder "a"; folder "b"]).
  - reflexivity.
  - reflexivity.
  - repeat constructor; unfold fits, MAX_PATH; simpl; lia.
  - vm_compute. reflexivity.
Defined.

(** ** Which entries are files, which are folders *)

(** Every entry of a finished folder loop had its own traversal. *)
Lemma DrawTree_loop_recursed recurse g strPath szArr width prevLine has :
  forall arr i t,
    DrawTree_loop recurse g strPath szArr width prevLine true has i arr
    = (t, Value tt) ->
    forall e, In e arr ->
      exists line t_sub,
        recurse (strPath ++ L "\" ++ cFileName e) ((width + 4) mod UINT_MAX1) line
        = (t_sub, Value tt)
        /\ incl t_sub t.
Proof.
  induction arr as [|a arr IH]; intros i t H e He; [destruct He|].
  apply DrawTree_loop_cons in H.
  destruct H as (line & t_sub & t_rest & _ & (child & Hchild & Hsub) & Hrest & ->).
  destruct He as [<-|He].
  - apply child_path_some in Hchild. destruct Hchild as [-> _].
    exists line, t_sub. split; [assumption|].
    intros x Hx. right. apply in_or_app. now left.
  - destruct (IH _ _ Hrest e He) as (line' & t' & Hrun & Hincl).
    exists line', t'. split; [assumption|].
    intros x Hx. right. apply in_or_app. right. now apply Hincl.
Qed.

(** Drawing folders whose lines and paths fit their buffers: each line,
    then the traversal of the folder's path, in the order of the list. *)
Lemma DrawTree_loop_folders recurse g strPath szArr width prevLine has :
  (columns width + 5 + MAX_PATH <= STR_MAX)%nat ->
  (length strPath + 1 + MAX_PATH <= STR_MAX)%nat ->
  forall arr i,
    Forall (fun e => fits (cFileName e)) arr ->
    DrawTree_loop recurse g strPath szArr width prevLine true has i arr
    = enter_folders recurse ((width + 4) mod UINT_MAX1)
        (folder_calls (bUseAscii g) strPath szArr width prevLine i arr).
Proof.
  intros Hcol Hpath. induction arr as [|e arr IH]; intros i Hfit; [reflexivity|].
  inversion Hfit as [|? ? He Harr]; subst.
  unfold folder_calls. cbn [DrawTree_loop length seq combine map enter_folders fst snd].
  rewrite console_line_fits.
  - rewrite StringCchPrintf_segment, segment_folder by assumption.
    rewrite child_path_fits by (unfold fits in He; lia).
    cbn [checked]. rewrite !bind_ret.
    apply bind_ext; intros _. rewrite IH by assumption. reflexivity.
  - rewrite StringCchPrintf_segment by assumption.
    pose proof (segment_length (bUseAscii g) true has szArr i (cFileName e)).
    unfold fits in He. lia.
Qed.

(** Drawing files whose lines fit: one line for each, and nothing else. *)
Lemma DrawTree_loop_files_run recurse g strPath szArr width prevLine has :
  (columns width + 5 + MAX_PATH <= STR_MAX)%nat ->
  forall arr i,
    Forall (fun e => fits (cFileName e)) arr ->
    DrawTree_loop recurse g strPath szArr width prevLine false has i arr
    = (map (file_line (bUseAscii g) has width prevLine) arr, Value tt).
Proof.
  intros Hcol. induction arr as [|e arr IH]; intros i Hfit; [reflexivity|].
  inversion Hfit as [|? ? He Harr]; subst.
  cbn [DrawTree_loop map]. rewrite console_line_fits.
  - rewrite StringCchPrintf_segment, segment_file by assumption.
    cbn [checked]. rewrite !bind_ret, bind_emit, IH by assumption.
    unfold file_line. cbn [fst snd]. now rewrite <- !app_assoc.
  - rewrite StringCchPrintf_segment by assumption.
    pose proof (segment_length (bUseAscii g) false has szArr i (cFileName e)).
    unfold fits in He. lia.
Qed.

(** One level of the traversal, by the arrays it fills. *)
Lemma level_sorted_and_searched :
  forall FindFirstFile stale fuel g strPath width prevLine FindFileData next,
    (length strPath + 5 <= STR_MAX)%nat ->
    FindFirstFile (strPath ++ L "\*.*") = Some (FindFileData, next) ->
    let found := FindFileData :: next in
    let recurse := GetDirectoryStructure FindFirstFile stale fuel g in
    exists arrFolder arrFile,
      collect found [] [] = (arrFolder, arrFile)
      /\ (forall e, In e arrFile <->
            In e found
            /\ Z.land (dwFileAttributes e) FILE_ATTRIBUTE_DIRECTORY = 0)
      /\ (forall e, In e arrFolder <->
            In e found
            /\ Z.land (dwFileAttributes e) FILE_ATTRIBUTE_DIRECTORY <> 0
            /\ cFileName e <> L "." /\ cFileName e <> L "..")
      /\ GetDirectoryStructure FindFirstFile stale (S fuel) g strPath width prevLine
         = (emit (FindFirst (strPath ++ L "\*.*")) ;;;
            (if bShowFiles g then
               DrawTree FindFirstFile stale recurse g strPath (spoof arrFile)
                 width prevLine false
             else ret tt) ;;;
            DrawTree FindFirstFile stale recurse g strPath arrFolder
              width prevLine true)
      /\ (forall t,
            GetDirectoryStructure FindFirstFile stale (S fuel) g strPath width
              prevLine = (t, Value tt) ->
            forall e, In e arrFolder ->
              In (FindFirst ((strPath ++ L "\" ++ cFileName e) ++ L "\*.*")) t).
Proof.
  intros FS stale fuel g strPath w p d next Hlen Hfs found recurse.
  exists (filter is_subfolder found), (filter is_file found).
  split; [apply collect_filter|].
  split; [intros e; rewrite filter_In, is_file_iff; reflexivity|].
  split; [intros e; rewrite filter_In, is_subfolder_iff; reflexivity|].
  assert (Heq : GetDirectoryStructure FS stale (S fuel) g strPath w p
                = (emit (FindFirst (strPath ++ L "\*.*")) ;;;
                   (if bShowFiles g then
                      DrawTree FS stale recurse g strPath
                        (spoof (filter is_file found)) w p false
                    else ret tt) ;;;
                   DrawTree FS stale recurse g strPath (filter is_subfolder found)
                     w p true)).
  { rewrite GetDirectoryStructure_search by assumption. now rewrite Hfs. }
  split; [exact Heq|].
  intros t H e He. rewrite Heq in H.
  bind_inv H as t0 u t1 Hemit. bind_inv H as t_files v t_folders Hfiles.
  unfold DrawTree in H. bind_inv H as t2 has t3 Hprobe.
  destruct (DrawTree_loop_recursed _ _ _ _ _ _ _ _ _ _ H e He)
    as (line & t_sub & Hrun & Hincl).
  subst recurse.
  destruct (GetDirectoryStructure_value _ _ _ _ _ _ _ _ Hrun) as (fuel' & -> & Hc).
  rewrite GetDirectoryStructure_search in Hrun by assumption.
  bind_inv Hrun as t4 u' t5 Hemit'. apply emit_value in Hemit'. subst t4.
  apply in_or_app. right. apply in_or_app. right. apply in_or_app. right.
  apply Hincl. now left.
Qed.

(** C10. Of the entries found in a directory, those whose attributes lack
    the directory flag, whatever their other attributes, make up the file
    array; those with the flag, other than [.] and [..], make up the folder
    array.  When the lines and paths of the level fit their buffers, the
    traversal of the directory is: its search; with [bShowFiles], the probe
    and one file line for each entry of the file array and for the spoofed
    entry, and no traversal of any of them; then the probe and, for each
    entry of the folder array in turn and for no other entry, its folder
    line followed by the traversal of its path.  A traversal that returned
    has searched the path of every folder of the folder array. *)
Theorem entries_sorted_by_directory_flag :
  forall FindFirstFile stale fuel g strPath width prevLine FindFileData next,
    (length strPath + 1 + MAX_PATH <= STR_MAX)%nat ->
    (columns width + 5 + MAX_PATH <= STR_MAX)%nat ->
    FindFirstFile (strPath ++ L "\*.*") = Some (FindFileData, next) ->
    Forall (fun e => fits (cFileName e)) (FindFileData :: next) ->
    let found := FindFileData :: next in
    let recurse := GetDirectoryStructure FindFirstFile stale fuel g in
    let has := probe_answer FindFirstFile stale strPath in
    exists arrFolder arrFile,
      collect found [] [] = (arrFolder, arrFile)
      /\ (forall e, In e arrFile <->
            In e found
            /\ Z.land (dwFileAttributes e) FILE_ATTRIBUTE_DIRECTORY = 0)
      /\ (forall e, In e arrFolder <->
            In e found
            /\ Z.land (dwFileAttributes e) FILE_ATTRIBUTE_DIRECTORY <> 0
            /\ cFileName e <> L "." /\ cFileName e <> L "..")
      /\ GetDirectoryStructure FindFirstFile stale (S fuel) g strPath width prevLine
         = (emit (FindFirst (strPath ++ L "\*.*")) ;;;
            (if bShowFiles g then
               (FindFirst (strPath ++ L "\*.")
                :: map (file_line (bUseAscii g) has width prevLine) (spoof arrFile),
                Value tt)
             else ret tt) ;;;
            emit (FindFirst (strPath ++ L "\*.")) ;;;
            enter_folders recurse ((width + 4) mod UINT_MAX1)
              (folder_calls (bUseAscii g) strPath (length arrFolder) width
                 prevLine 0 arrFolder))
      /\ (forall t,
            GetDirectoryStructure FindFirstFile stale (S fuel) g strPath width
              prevLine = (t, Value tt) ->
            forall e, In e arrFolder ->
              In (FindFirst ((strPath ++ L "\" ++ cFileName e) ++ L "\*.*")) t).
Proof.
  intros FS stale fuel g strPath w p d next Hpath Hcol Hfs Hfit found recurse has.
  assert (Hlen : (length strPath + 5 <= STR_MAX)%nat)
    by (rewrite MAX_PATH_eq in Hpath; lia).
  destruct (level_sorted_and_searched FS stale fuel g strPath w p d next Hlen Hfs)
    as (arrFolder & arrFile & Hc & HA & HF & Heq & Hsearch).
  fold found in Hc. rewrite collect_filter in Hc. cbn [app] in Hc.
  assert (Harr : arrFolder = filter is_subfolder found
                 /\ arrFile = filter is_file found) by (split; congruence).
  destruct Harr as [HeqF HeqA]. subst arrFolder arrFile. clear Hc.
  exists (filter is_subfolder found), (filter is_file found).
  split; [apply collect_filter|]. split; [exact HA|]. split; [exact HF|].
  split; [|exact Hsearch].
  assert (Hsub : forall f, Forall (fun x => fits (cFileName x)) (filter f found)).
  { intros f. apply Forall_forall. intros x Hx. apply filter_In in Hx.
    rewrite Forall_forall in Hfit. apply Hfit, Hx. }
  rewrite Heq. apply bind_ext; intros _.
  unfold DrawTree. rewrite !HasSubFolder_fits by lia. rewrite !bind_ret_trace.
  fold has.
  rewrite DrawTree_loop_files_run by (try assumption; apply spoof_fits, Hsub).
  rewrite DrawTree_loop_folders by (try assumption; apply Hsub).
  cbn [fst snd app]. rewrite bind_emit. fold recurse.
  destruct (enter_folders recurse ((w + 4) mod UINT_MAX1)
              (folder_calls (bUseAscii g) strPath
                 (length (filter is_subfolder found)) w p 0
                 (filter is_subfolder found))) as [t o].
  destruct (bShowFiles g); reflexivity.
Qed.

Lemma entries_sorted_by_directory_flag_witness :
  exists arrFolder arrFile,
    collect [folder "."; folder ".."; file "f.txt"; folder "a"; folder "b"] [] []
    = (arrFolder, arrFile)
    /\ (forall e, In e arrFile <->
          In e [folder "."; folder ".."; file "f.txt"; folder "a"; folder "b"]
          /\ Z.land (dwFileAttributes e) FILE_ATTRIBUTE_DIRECTORY = 0)
    /\ (forall e, In e arrFolder <->
          In e [folder "."; folder ".."; file "f.txt"; folder "a"; folder "b"]
          /\ Z.land (dwFileAttributes e) FILE_ATTRIBUTE_DIRECTORY <> 0
          /\ cFileName e <> L "." /\ cFileName e <> L "..")
    /\ GetDirectoryStructure sample zeroed 5 flags_FA (L "C:\R") 1 (L "          ")
       = (emit (FindFirst (L "C:\R" ++ L "\*.*")) ;;;
          (if bShowFiles flags_FA then
             (FindFirst (L "C:\R" ++ L "\*.")
              :: map (file_line (bUseAscii flags_FA)
                        (probe_answer sample zeroed (L "C:\R")) 1 (L "          "))
                   (spoof arrFile),
              Value tt)
           else ret tt) ;;;
          emit (FindFirst (L "C:\R" ++ L "\*.")) ;;;
          enter_folders (GetDirectoryStructure sample zeroed 4 flags_FA)
            ((1 + 4) mod UINT_MAX1)
            (folder_calls (bUseAscii flags_FA) (L "C:\R") (length arrFolder) 1
               (L "          ") 0 arrFolder))
    /\ (forall t,
          GetDirectoryStructure sample zeroed 5 flags_FA (L "C:\R") 1
            (L "          ") = (t, Value tt) ->
          forall e, In e arrFolder ->
            In (FindFirst ((L "C:\R" ++ L "\" ++ cFileName e) ++ L "\*.*")) t).
Proof.
  apply (entries_sorted_by_directory_flag sample zeroed 4 flags_FA (L "C:\R") 1
           (L "          ") (folder ".")
           [folder ".."; file "f.txt"; folder "a"; folder "b"]).
  - rewrite STR_MAX_eq, MAX_PATH_eq. simpl. lia.
  - rewrite STR_MAX_eq, MAX_PATH_eq. simpl. lia.
  - reflexivity.
  - repeat (constructor; [unfold fits; rewrite MAX_PATH_eq; simpl; lia|]).
    constructor.
Defined.

(** ** A folder that cannot be opened *)

(** C6. When the search of a folder met in the traversal cannot be opened,
    [GetDirectoryStructure] returns at once: the folder gets its own line
    and no line below it, and the loop goes on with the entries after it
    at the next index, under the same width, previous line and count, as
    it came to it from the entries before. *)
Theorem unreadable_folder_is_leaf :
  forall FindFirstFile stale fuel g strPath pre entry post width prevLine
         has szArr consoleOut str,
    console_line (bUseAscii g) true has szArr width prevLine (length pre)
      (cFileName entry) = Some consoleOut ->
    child_path strPath (cFileName entry) = Some str ->
    (length str + 5 <= STR_MAX)%nat ->
    FindFirstFile (str ++ L "\*.*") = None ->
    let recurse := GetDirectoryStructure FindFirstFile stale (S fuel) g in
    let loop := DrawTree_loop recurse g strPath szArr width prevLine true has in
    recurse str ((width + 4) mod UINT_MAX1) consoleOut
    = ([FindFirst (str ++ L "\*.*")], Value tt)
    /\ loop 0%nat (pre ++ entry :: post)
       = (loop 0%nat pre ;;;
          emit (Stdout (consoleOut ++ LF)) ;;;
          emit (FindFirst (str ++ L "\*.*")) ;;;
          loop (S (length pre)) post).
Proof.
  intros FS stale fuel g strPath pre entry post w p has n line child
         Hline Hchild Hlen Hfs recurse loop.
  assert (Hrun : recurse child ((w + 4) mod UINT_MAX1) line
                 = ([FindFirst (child ++ L "\*.*")], Value tt))
    by (apply GetDirectoryStructure_closed; assumption).
  split; [exact Hrun|].
  subst loop. rewrite DrawTree_loop_app. apply bind_ext; intros _.
  cbn [Nat.add DrawTree_loop]. rewrite Hline, Hchild. cbn [checked].
  rewrite !bind_ret. apply bind_ext; intros _.
  rewrite Hrun. rewrite bind_emit. unfold bind at 1.
  destruct (DrawTree_loop recurse g strPath n w p true has (S (length pre)) post).
  reflexivity.
Qed.

Lemma unreadable_folder_is_leaf_witness :
  sample_walk flags_A (L "C:\R\b") ((1 + 4) mod UINT_MAX1) (L "\---b")
  = ([FindFirst (L "C:\R\b" ++ L "\*.*")], Value tt)
  /\ DrawTree_loop (sample_walk flags_A) flags_A (L "C:\R") 2 1 (L "          ")
       true false 0%nat ([folder "a"] ++ folder "b" :: [])
     = (DrawTree_loop (sample_walk flags_A) flags_A (L "C:\R") 2 1 (L "          ")
          true false 0%nat [folder "a"] ;;;
        emit (Stdout (L "\---b" ++ LF)) ;;;
        emit (FindFirst (L "C:\R\b" ++ L "\*.*")) ;;;
        DrawTree_loop (sample_walk flags_A) flags_A (L "C:\R") 2 1 (L "          ")
          true false 2%nat []).
Proof.
  apply (unreadable_folder_is_leaf sample zeroed 4 flags_A (L "C:\R")
           [folder "a"] (folder "b") [] 1 (L "          ") false 2
           (L "\---b") (L "C:\R\b")).
  - reflexivity.
  - reflexivity.
  - rewrite STR_MAX_eq. simpl. lia.
  - reflexivity.
Defined.

(** ** The spoofed entry *)

(** The loop over files starts no search. *)
Lemma DrawTree_loop_files_events recurse g strPath szArr width prevLine has :
  forall arr i pattern,
    ~ In (FindFirst pattern)
        (fst (DrawTree_loop recurse g strPath szArr width prevLine false has i arr)).
Proof.
  induction arr as [|e arr IH]; intros i pattern; cbn [DrawTree_loop]; [intros []|].
  destruct (console_line (bUseAscii g) false has szArr width prevLine i (cFileName e))
    as [line|]; [|intros []].
  cbn [checked]. rewrite !bind_ret, bind_emit. cbn [fst].
  intros [Hin|Hin]; [discriminate|]. now apply IH in Hin.
Qed.

(** C7. The spoofed entry stands at the end of a list drawn with file
    kind.  Drawing that list never enters [GetDirectoryStructure]: the run
    is the same when the traversal of the level below is replaced by one
    that cannot run, and the only search it starts is the probe of the
    directory itself.  The line of the spoofed entry is the prefix and the
    lead of a file line followed by one blank. *)
Theorem spacer_is_not_a_folder :
  forall FindFirstFile stale recurse g strPath arrFile width prevLine,
    let run recurse :=
      DrawTree FindFirstFile stale recurse g strPath (arrFile ++ [spacer])
        width prevLine false in
    run recurse = run (fun _ _ _ => ([], OutOfFuel))
    /\ (forall pattern, In (FindFirst pattern) (fst (run recurse)) ->
          pattern = strPath ++ L "\*.")
    /\ (forall t, run recurse = (t, Value tt) ->
          exists (has : bool) (prefix : wstring) (t' : list event),
            let lead :=
              if has then (if bUseAscii g then L "|   " else u2502 :: L "   ")
              else L "     " in
            HasSubFolder FindFirstFile stale strPath
            = ([FindFirst (strPath ++ L "\*.")], Value has)
            /\ length prefix = columns width
            /\ t = t' ++ [Stdout (prefix ++ lead ++ L " " ++ LF)]).
Proof.
  intros FS stale recurse g strPath arr w p run. subst run. cbv beta.
  split; [|split].
  - unfold DrawTree. apply bind_ext; intros has.
    apply DrawTree_loop_files_recurse.
  - intros pattern. unfold DrawTree.
    destruct (Nat.le_gt_cases (length strPath + 4) STR_MAX) as [Hle|Hgt].
    + rewrite HasSubFolder_fits by assumption.
      rewrite bind_fst with (a := probe_answer FS stale strPath) by reflexivity.
      cbn [fst app]. intros [Hin|Hin]; [now inversion Hin|].
      now apply DrawTree_loop_files_events in Hin.
    + rewrite HasSubFolder_overflow by assumption. intros [].
  - intros t H. unfold DrawTree in H. bind_inv H as t0 has t1 Hprobe.
    pose proof (HasSubFolder_value _ _ _ _ _ Hprobe) as (_ & -> & _).
    rewrite DrawTree_loop_app in H. bind_inv H as t_files u t_last Hfiles.
    apply DrawTree_loop_files in H;
      [|constructor; [apply fits_spacer | constructor]].
    subst t_last.
    exists has, (prefix_of (bUseAscii g) p (columns w) 0),
      (FindFirst (strPath ++ L "\*.") :: t_files).
    cbv zeta. split; [assumption|]. split; [apply prefix_of_length|].
    cbn [map app]. reflexivity.
Qed.

Lemma spacer_is_not_a_folder_witness :
  exists (has : bool) (prefix : wstring) (t' : list event),
    let lead := if has then L "|   " else L "     " in
    HasSubFolder sample zeroed (L "C:\R")
    = ([FindFirst (L "C:\R" ++ L "\*.")], Value has)
    /\ length prefix = columns 1
    /\ fst (DrawTree sample zeroed (sample_walk flags_FA) flags_FA (L "C:\R")
              ([file "f.txt"] ++ [spacer]) 1 (L "          ") false)
       = t' ++ [Stdout (prefix ++ lead ++ L " " ++ LF)].
Proof.
  apply (proj2 (proj2 (spacer_is_not_a_folder sample zeroed (sample_walk flags_FA)
                         flags_FA (L "C:\R") [file "f.txt"] 1 (L "          ")))).
  vm_compute. reflexivity.
Defined.

(** ** The probe of a path that cannot be opened *)

Lemma HasSubFolder_unopened FindFirstFile stale strPath :
  (length strPath + 4 <= STR_MAX)%nat ->
  FindFirstFile (strPath ++ L "\*.") = None ->
  HasSubFolder FindFirstFile stale strPath
  = ([FindFirst (strPath ++ L "\*.")], Value (is_subfolder (stale strPath))).
Proof.
  intros Hfit Hfs. rewrite HasSubFolder_fits by assumption.
  unfold probe_answer. rewrite Hfs, HasSubFolder_scan_existsb. simpl.
  now rewrite orb_false_r.
Qed.

(** C5. [HasSubFolder] goes into its loop without looking at the handle it
    got: on a path whose search does not open, with the directory entry of
    an earlier search left in its find buffer, it answers [TRUE]. *)
Theorem probe_of_unopened_path_reads_stale_buffer :
  closed (L "C:\Q" ++ L "\*.") = None
  /\ HasSubFolder closed leftover (L "C:\Q")
     = ([FindFirst (L "C:\Q\*.")], Value true).
Proof. split; reflexivity. Qed.

(** ** The command line *)

Section CommandLine.

Variable FindFirstFile : wstring -> option (WIN32_FIND_DATA * list WIN32_FIND_DATA).
Variable stale : wstring -> WIN32_FIND_DATA.
Variable wfullpath : wstring -> wstring.
Variable dwName : wstring.
Variable dwSerial : Z.
Variable CharUpper : wstring -> wstring.
Variable SetCurrentDirectory : wstring -> option wstring.
Variable GetCurrentDirectory : wstring.
Variable getdrive : Z.

Let main := wmain FindFirstFile stale wfullpath dwName dwSerial CharUpper
              SetCurrentDirectory GetCurrentDirectory getdrive.

(** An unsupported switch falls through [default: break]. *)
Lemma parse_args_unsupported sw rest g specifiedPath :
  is_unsupported sw = true ->
  parse_args wfullpath (sw :: rest) g specifiedPath = parse_args wfullpath rest g specifiedPath.
Proof.
  unfold is_unsupported, is_switch. intros H.
  apply andb_true_iff in H. destruct H as [H Ha].
  apply andb_true_iff in H. destruct H as [H Hf].
  apply andb_true_iff in H. destruct H as [Hs Hq].
  apply negb_true_iff in Ha, Hf, Hq.
  cbn [parse_args]. now rewrite Hs, Hq, Hf, Ha.
Qed.

Lemma parse_args_skip sw rest : forall pre g specifiedPath,
  is_unsupported sw = true ->
  parse_args wfullpath (pre ++ sw :: rest) g specifiedPath = parse_args wfullpath (pre ++ rest) g specifiedPath.
Proof.
  induction pre as [|a pre IH]; intros g sp H.
  - now apply parse_args_unsupported.
  - cbn [app parse_args] in *.
    destruct ((nth 0 a 0 =? wc "-") || (nth 0 a 0 =? wc "/")).
    + destruct (towlower (nth 1 a 0) =? wc "?"); [reflexivity|].
      destruct (towlower (nth 1 a 0) =? wc "f"); [now apply IH|].
      destruct (towlower (nth 1 a 0) =? wc "a"); now apply IH.
    + destruct (negb (bSetPath g)); [now apply IH | reflexivity].
Qed.

(** Switches other than the help switch never set [bSetPath]. *)
Lemma parse_args_switches rest : forall pre g specifiedPath,
  Forall (fun a => is_switch a = true /\ is_help a = false) pre ->
  exists g',
    parse_args wfullpath (pre ++ rest) g specifiedPath = parse_args wfullpath rest g' specifiedPath
    /\ bSetPath g' = bSetPath g.
Proof.
  induction pre as [|a pre IH]; intros g sp H.
  - exists g. split; reflexivity.
  - inversion H as [|? ? [Hs Hh] Hpre]; subst.
    unfold is_help in Hh. rewrite Hs in Hh. cbn [andb] in Hh.
    unfold is_switch in Hs.
    cbn [app parse_args] in *. rewrite Hs, Hh.
    destruct (towlower (nth 1 a 0) =? wc "f");
      [|destruct (towlower (nth 1 a 0) =? wc "a")];
      match goal with
      | |- context [parse_args _ _ ?g' _] =>
          destruct (IH g' sp Hpre) as (g2 & Heq & Hset)
      end; exists g2; split; auto.
Qed.

(** C8, as the code has it.  A second argument that is not a switch,
    coming before any help switch, is reported on the error stream by
    name, and the program returns 0 there: it prints nothing else and
    starts no search.  An unsupported switch is not reported: it is
    skipped, and the program runs as it does without it. *)
Theorem extra_positional_argument_reported :
  forall fuel,
    (forall argv0 pre first mid extra rest,
        Forall (fun a => is_switch a = true /\ is_help a = false) (pre ++ mid) ->
        is_switch first = false ->
        is_switch extra = false ->
        main fuel (argv0 :: pre ++ first :: mid ++ extra :: rest)
        = ([Stderr (L "Too many parameters - " ++ extra ++ LF ++ LF)], Value 0))
    /\ (forall argv0 pre sw rest,
          is_unsupported sw = true ->
          main fuel (argv0 :: pre ++ sw :: rest) = main fuel (argv0 :: pre ++ rest)).
Proof.
  intros fuel. split.
  - intros argv0 pre first mid extra rest Hsw Hfirst Hextra.
    apply Forall_app in Hsw. destruct Hsw as [Hpre Hmid].
    subst main. unfold wmain. cbn [tl].
    destruct (parse_args_switches (first :: mid ++ extra :: rest) pre
                (mkGlobals false false false) [] Hpre) as (g1 & -> & Hg1).
    unfold is_switch in Hfirst, Hextra.
    cbn [parse_args]. rewrite Hfirst, Hg1. cbn [bSetPath negb].
    match goal with
    | |- context [parse_args _ _ ?g' ?sp] =>
        destruct (parse_args_switches (extra :: rest) mid g' sp Hmid)
          as (g2 & Heq & Hg2)
    end.
    rewrite Heq. cbn [parse_args]. rewrite Hextra, Hg2. cbn [bSetPath negb].
    reflexivity.
  - intros argv0 pre sw rest H. subst main. unfold wmain. cbn [tl].
    now rewrite parse_args_skip.
Qed.

End CommandLine.

Lemma extra_positional_argument_reported_witness :
  sample_main [L "tree"; L "/f"; L "C:\R"; L "/a"; L "more"; L "/?"]
  = ([Stderr (L "Too many parameters - " ++ L "more" ++ LF ++ LF)], Value 0)
  /\ sample_main [L "tree"; L "/x"; L "/a"] = sample_main [L "tree"; L "/a"].
Proof.
  split.
  - apply (proj1 (extra_positional_argument_reported sample zeroed (fun p => p)
                    (L "DATA") 0x1234ABCD (fun p => p) sample_chdir (L "C:\R") 3 5)
             (L "tree") [L "/f"] (L "C:\R") [L "/a"] (L "more") [L "/?"]).
    + repeat constructor.
    + reflexivity.
    + reflexivity.
  - apply (proj2 (extra_positional_argument_reported sample zeroed (fun p => p)
                    (L "DATA") 0x1234ABCD (fun p => p) sample_chdir (L "C:\R") 3 5)
             (L "tree") [] (L "/x") [L "/a"]).
    reflexivity.
Defined.

(** C8, as the specification has it, fails on the unsupported switch [/x]:
    nothing reaches the error stream, the search of the current directory
    is started, and the tree is written. *)
Lemma unsupported_switch_is_not_reported :
  is_unsupported (L "/x") = true
  /\ errors (fst (sample_main [L "tree"; L "/x"])) = []
  /\ In (FindFirst (L "C:\R\*.*")) (fst (sample_main [L "tree"; L "/x"]))
  /\ In (Stdout ([u251c; u2500; u2500; u2500] ++ L "a" ++ LF))
       (fst (sample_main [L "tree"; L "/x"]))
  /\ snd (sample_main [L "tree"; L "/x"]) = Value 0.
Proof.
  split; [reflexivity|]. split; [reflexivity|].
  split; [vm_compute; repeat (first [left; reflexivity | right])|].
  split; [vm_compute; repeat (first [left; reflexivity | right]) | reflexivity].
Qed.

(** ** ASCII mode against Unicode mode *)

Lemma to_ascii_plain c : ~ In c box_drawing -> to_ascii c = c.
Proof.
  unfold box_drawing, to_ascii. simpl. intros H.
  destruct (Z.eqb_spec c u251c) as [->|_]; [exfalso; apply H; auto|].
  destruct (Z.eqb_spec c u2500) as [->|_]; [exfalso; apply H; auto|].
  destruct (Z.eqb_spec c u2514) as [->|_]; [exfalso; apply H; auto|].
  destruct (Z.eqb_spec c u2502) as [->|_]; [exfalso; apply H; auto|]. reflexivity.
Qed.

Lemma map_to_ascii_plain name : plain name -> map to_ascii name = name.
Proof.
  intros H. rewrite <- (map_id name) at 2. apply map_ext_in.
  intros c Hc. apply to_ascii_plain. now apply H.
Qed.

(** The test of the indentation loop cannot tell a character from its
    substitute. *)
Lemma to_ascii_continuation c : is_continuation (to_ascii c) = is_continuation c.
Proof.
  unfold to_ascii.
  destruct (Z.eqb_spec c u251c); [subst; reflexivity|].
  destruct (Z.eqb_spec c u2500); [subst; reflexivity|].
  destruct (Z.eqb_spec c u2514); [subst; reflexivity|].
  destruct (Z.eqb_spec c u2502); [subst; reflexivity|]. reflexivity.
Qed.

Lemma substituted_bind {A B} (m : io A) (k : A -> io B) :
  substituted (bind m k) = bind (substituted m) (fun a => substituted (k a)).
Proof.
  unfold substituted, substitute.
  destruct m as [t [a| |]]; cbn [bind fst snd]; try reflexivity.
  destruct (k a) as [t' o]. cbn [fst snd]. now rewrite map_app.
Qed.

Lemma substituted_checked {A} (o : option A) : substituted (checked o) = checked o.
Proof. destruct o; reflexivity. Qed.

Lemma substituted_ret {A} (a : A) : substituted (ret a) = ret a.
Proof. reflexivity. Qed.

Lemma substituted_HasSubFolder FindFirstFile stale strPath :
  substituted (HasSubFolder FindFirstFile stale strPath)
  = HasSubFolder FindFirstFile stale strPath.
Proof.
  destruct (Nat.le_gt_cases (length strPath + 4) STR_MAX) as [Hle|Hgt].
  - now rewrite HasSubFolder_fits.
  - now rewrite HasSubFolder_overflow.
Qed.

Lemma indent_eq ascii p n :
  indent ascii p n 0 []
  = if (n =? 0)%nat || (n + 1 <=? STR_MAX)%nat
    then Some (prefix_of ascii p n 0) else None.
Proof.
  destruct ((n =? 0)%nat || (n + 1 <=? STR_MAX)%nat) eqn:E.
  - apply orb_true_iff in E. rewrite Nat.eqb_eq, Nat.leb_le in E.
    rewrite indent_fits by (simpl; tauto). reflexivity.
  - apply orb_false_iff in E. rewrite Nat.eqb_neq, Nat.leb_gt in E.
    destruct (indent ascii p n 0 []) as [r|] eqn:Er; [|reflexivity].
    apply indent_some in Er. simpl in Er. lia.
Qed.

Lemma glyph_to_ascii a u :
  is_continuation a = is_continuation u -> glyph true a = to_ascii (glyph false u).
Proof.
  unfold glyph. intros ->. destruct (is_continuation u); reflexivity.
Qed.

Lemma prefix_of_to_ascii width pA pU :
  read_alike width pA pU ->
  prefix_of true pA (columns width) 0
  = map to_ascii (prefix_of false pU (columns width) 0).
Proof.
  intros H. unfold prefix_of. rewrite map_map. apply map_ext_in.
  intros j Hj. apply in_seq in Hj. apply glyph_to_ascii, H. lia.
Qed.

Lemma segment_to_ascii df has n i name :
  plain name ->
  segment true df has n i name = map to_ascii (segment false df has n i name).
Proof.
  intros H. unfold segment.
  destruct (negb (n - 1 =? i)%nat), df, has; cbn [app map];
    rewrite ?map_app, (map_to_ascii_plain name H); reflexivity.
Qed.

Lemma StringCchPrintf_map f n s :
  StringCchPrintf n (map f s) = map f (StringCchPrintf n s).
Proof. unfold StringCchPrintf. apply firstn_map. Qed.

Lemma console_line_to_ascii df has n width pA pU i name :
  read_alike width pA pU ->
  plain name ->
  console_line true df has n width pA i name
  = option_map (map to_ascii) (console_line false df has n width pU i name).
Proof.
  intros Hp Hn. unfold console_line. rewrite !indent_eq.
  destruct ((columns width =? 0)%nat || (columns width + 1 <=? STR_MAX)%nat);
    [|reflexivity].
  rewrite (prefix_of_to_ascii _ _ _ Hp), (segment_to_ascii _ _ _ _ _ Hn).
  rewrite StringCchPrintf_map. unfold wcscat_s. rewrite !length_map.
  destruct (_ <=? STR_MAX)%nat; [|reflexivity].
  cbn [option_map]. now rewrite map_app.
Qed.

(** A line and its substitute are read alike by the level below. *)
Lemma read_alike_map width line : read_alike width (map to_ascii line) line.
Proof.
  intros j _. change 0 with (to_ascii 0) at 1.
  rewrite map_nth. apply to_ascii_continuation.
Qed.

Section AsciiLoop.

Variable recurseA recurseU : wstring -> Z -> wstring -> io unit.
Hypothesis recurse_alike : forall s w pA pU,
  read_alike w pA pU -> recurseA s w pA = substituted (recurseU s w pU).

Variables gA gU : globals.
Hypothesis ascii_A : bUseAscii gA = true.
Hypothesis ascii_U : bUseAscii gU = false.

Variable strPath : wstring.
Variable szArr : nat.
Variable width : Z.
Variables pA pU : wstring.
Hypothesis previous_alike : read_alike width pA pU.
Variable df has : bool.

Lemma DrawTree_loop_to_ascii : forall arr i,
  Forall (fun e => plain (cFileName e)) arr ->
  DrawTree_loop recurseA gA strPath szArr width pA df has i arr
  = substituted (DrawTree_loop recurseU gU strPath szArr width pU df has i arr).
Proof.
  induction arr as [|e arr IH]; intros i Hplain; cbn [DrawTree_loop];
    [reflexivity|].
  inversion Hplain as [|? ? He Harr]; subst.
  rewrite ascii_A, ascii_U.
  rewrite (console_line_to_ascii df has szArr width pA pU i _ previous_alike He).
  rewrite substituted_bind, substituted_checked.
  destruct (console_line false df has szArr width pU i (cFileName e)) as [line|];
    [|reflexivity].
  cbn [option_map checked]. rewrite !bind_ret.
  rewrite substituted_bind.
  replace (substituted (emit (Stdout (line ++ LF))))
    with (emit (Stdout (map to_ascii line ++ LF)))
    by (unfold substituted, emit; cbn; now rewrite map_app).
  apply bind_ext; intros _. rewrite substituted_bind.
  rewrite IH by assumption. destruct df; [|reflexivity].
  f_equal. rewrite substituted_bind, substituted_checked.
  apply bind_ext; intros child. apply recurse_alike, read_alike_map.
Qed.

End AsciiLoop.

Section AsciiTraversal.

Variable FindFirstFile : wstring -> option (WIN32_FIND_DATA * list WIN32_FIND_DATA).
Variable stale : wstring -> WIN32_FIND_DATA.
Hypothesis names_plain : plain_host FindFirstFile.

Lemma DrawTree_to_ascii recurseA recurseU gA gU strPath arr width pA pU df :
  (forall s w qA qU,
      read_alike w qA qU -> recurseA s w qA = substituted (recurseU s w qU)) ->
  bUseAscii gA = true ->
  bUseAscii gU = false ->
  read_alike width pA pU ->
  Forall (fun e => plain (cFileName e)) arr ->
  DrawTree FindFirstFile stale recurseA gA strPath arr width pA df
  = substituted (DrawTree FindFirstFile stale recurseU gU strPath arr width pU df).
Proof.
  intros Hrec HA HU Hp Hplain. unfold DrawTree.
  rewrite substituted_bind, substituted_HasSubFolder.
  apply bind_ext; intros has. now apply DrawTree_loop_to_ascii.
Qed.

Lemma plain_spacer : plain (cFileName spacer).
Proof. intros c [<-|[]]. simpl. intros [H|[H|[H|[H|[]]]]]; discriminate. Qed.

Lemma GetDirectoryStructure_to_ascii showfiles setpath :
  forall fuel strPath width pA pU,
    read_alike width pA pU ->
    GetDirectoryStructure FindFirstFile stale fuel
      (mkGlobals showfiles true setpath) strPath width pA
    = substituted
        (GetDirectoryStructure FindFirstFile stale fuel
           (mkGlobals showfiles false setpath) strPath width pU).
Proof.
  induction fuel as [|fuel IH]; intros strPath w pA pU Hp; [reflexivity|].
  cbn [GetDirectoryStructure bShowFiles].
  rewrite substituted_bind, substituted_checked. apply bind_ext; intros tmp.
  rewrite substituted_bind, substituted_checked. apply bind_ext; intros tmp'.
  rewrite substituted_bind.
  change (substituted (emit (FindFirst tmp'))) with (emit (FindFirst tmp')).
  apply bind_ext; intros _.
  destruct (FindFirstFile tmp') as [[d next]|] eqn:E; [|reflexivity].
  pose proof (names_plain _ _ _ E) as Hplain.
  rewrite collect_filter. cbn [app]. rewrite substituted_bind.
  assert (Hfolders : Forall (fun e => plain (cFileName e))
                       (filter is_subfolder (d :: next))).
  { apply Forall_forall. intros e He. apply filter_In in He.
    rewrite Forall_forall in Hplain. apply Hplain, He. }
  assert (Hfiles : Forall (fun e => plain (cFileName e))
                     (spoof (filter is_file (d :: next)))).
  { unfold spoof. destruct (0 <? _)%nat.
    - apply Forall_app. split.
      + apply Forall_forall. intros e He. apply filter_In in He.
        rewrite Forall_forall in Hplain. apply Hplain, He.
      + constructor; [apply plain_spacer | constructor].
    - apply Forall_forall. intros e He. apply filter_In in He.
      rewrite Forall_forall in Hplain. apply Hplain, He. }
  rewrite (DrawTree_to_ascii _ (GetDirectoryStructure FindFirstFile stale fuel
                                  (mkGlobals showfiles false setpath))
             _ (mkGlobals showfiles false setpath) _ _ w pA pU true);
    try assumption; try reflexivity.
  destruct showfiles.
  - rewrite (DrawTree_to_ascii _ (GetDirectoryStructure FindFirstFile stale fuel
                                    (mkGlobals true false setpath))
               _ (mkGlobals true false setpath) _ _ w pA pU false);
      try assumption; reflexivity.
  - reflexivity.
Qed.

End AsciiTraversal.

Lemma show_substitute t : show (substitute t) = map (map to_ascii) (show t).
Proof.
  unfold show, substitute. induction t as [|e t IH]; [reflexivity|].
  cbn [map flat_map]. rewrite IH. destruct e; reflexivity.
Qed.

(** C9, as the code has it.  On a host none of whose names holds a
    box-drawing character, for either setting of [bShowFiles], the
    traversal in ASCII mode does what the traversal in Unicode mode does,
    with the branch, the horizontal bar, the last branch and the vertical
    bar of its output replaced by [+], [-], [\] and [|], and nothing else
    changed. *)
Theorem ascii_output_is_substituted_unicode_output :
  forall FindFirstFile stale fuel showfiles setpath strPath prevLine,
    plain_host FindFirstFile ->
    let run ascii :=
      GetDirectoryStructure FindFirstFile stale fuel
        (mkGlobals showfiles ascii setpath) strPath 1 prevLine in
    fst (run true) = substitute (fst (run false))
    /\ snd (run true) = snd (run false)
    /\ written (run true) = map (map to_ascii) (written (run false)).
Proof.
  intros FS stale fuel sf sp strPath p Hplain run.
  assert (H : run true = substituted (run false)).
  { subst run. apply GetDirectoryStructure_to_ascii; [assumption|].
    intros j Hj. rewrite columns_1 in Hj. lia. }
  unfold written. rewrite H. cbn [substituted fst snd].
  split; [reflexivity|]. split; [reflexivity|]. apply show_substitute.
Qed.

(** C9, as the specification has it, fails on a folder whose name is one
    horizontal bar: ASCII mode writes the name as it is, the substitution
    turns it into [-]. *)
Lemma boxed_name_is_not_substituted :
  written (GetDirectoryStructure boxed zeroed 5 flags_A (L "C:\R") 1 (L "          "))
  <> map (map to_ascii)
       (written (GetDirectoryStructure boxed zeroed 5 flags_U (L "C:\R") 1
                   (L "          "))).
Proof. vm_compute. discriminate. Qed.

Lemma lookup_In table : forall dir entries,
  lookup table dir = Some entries -> exists d, In (d, entries) table.
Proof.
  induction table as [|[d es] table IH]; intros dir entries; simpl; [discriminate|].
  destruct (wcs_eqb d dir).
  - intros H. inversion H; subst. exists d. now left.
  - intros H. destruct (IH _ _ H) as [d' Hd]. exists d'. now right.
Qed.

Lemma host_In table pattern FindFileData next :
  host table pattern = Some (FindFileData, next) ->
  exists d, In (d, FindFileData :: next) table.
Proof.
  unfold host.
  destruct (match strip (L "\*.*") pattern with
            | Some d => Some d
            | None => strip (L "\*.") pattern
            end) as [dir|]; [|discriminate].
  destruct (lookup table dir) as [[|e es]|] eqn:E; try discriminate.
  intros H. inversion H; subst. eapply lookup_In; eassumption.
Qed.

Lemma sample_plain : plain_host sample.
Proof.
  intros pattern d next H. apply host_In in H. destruct H as [dir H].
  unfold sample_table in H. simpl in H.
  destruct H as [H|[H|[H|[]]]]; inversion H; subst;
    repeat constructor; intros c Hc; simpl in Hc;
    repeat (destruct Hc as [<-|Hc];
            [intros [E|[E|[E|[E|[]]]]]; discriminate E|]);
    destruct Hc.
Qed.

Lemma ascii_output_is_substituted_unicode_output_witness :
  fst (GetDirectoryStructure sample zeroed 5 (mkGlobals true true false)
         (L "C:\R") 1 (L "          "))
  = substitute (fst (GetDirectoryStructure sample zeroed 5
                       (mkGlobals true false false) (L "C:\R") 1 (L "          ")))
  /\ snd (GetDirectoryStructure sample zeroed 5 (mkGlobals true true false)
            (L "C:\R") 1 (L "          "))
     = snd (GetDirectoryStructure sample zeroed 5 (mkGlobals true false false)
              (L "C:\R") 1 (L "          "))
  /\ written (GetDirectoryStructure sample zeroed 5 (mkGlobals true true false)
                (L "C:\R") 1 (L "          "))
     = map (map to_ascii)
         (written (GetDirectoryStructure sample zeroed 5
                     (mkGlobals true false false) (L "C:\R") 1 (L "          "))).
Proof.
  apply (ascii_output_is_substituted_unicode_output sample zeroed 5 true false
           (L "C:\R") (L "          ")).
  exact sample_plain.
Defined.

(** ** The recursion budget *)

Lemma bind_starved {A B} (m : io A) (k : A -> io B) :
  snd (bind m k) = OutOfFuel ->
  snd m = OutOfFuel \/ exists a, snd m = Value a /\ snd (k a) = OutOfFuel.
Proof.
  destruct m as [t [a| |]]; cbn [bind snd]; try discriminate; auto.
  destruct (k a) as [t' o] eqn:E. cbn [snd]. intros ->.
  right. exists a. rewrite E. auto.
Qed.

Lemma checked_starved {A} (o : option A) : snd (checked o) <> OutOfFuel.
Proof. destruct o; discriminate. Qed.

Lemma HasSubFolder_starved FindFirstFile stale strPath :
  snd (HasSubFolder FindFirstFile stale strPath) <> OutOfFuel.
Proof.
  destruct (Nat.le_gt_cases (length strPath + 4) STR_MAX) as [Hle|Hgt].
  - rewrite HasSubFolder_fits by assumption. discriminate.
  - rewrite HasSubFolder_overflow by assumption. discriminate.
Qed.

Section Budget.

Variable FindFirstFile : wstring -> option (WIN32_FIND_DATA * list WIN32_FIND_DATA).
Variable stale : wstring -> WIN32_FIND_DATA.
Variable g : globals.

(** The loop runs out of budget only where the level below does, and
    the level below is entered with a longer path that still fits its
    buffer. *)
Lemma DrawTree_loop_starved recurse strPath szArr width prevLine df has :
  (forall str w p,
      (length strPath < length str)%nat ->
      (length str + 1 <= STR_MAX)%nat ->
      snd (recurse str w p) <> OutOfFuel) ->
  forall arr i,
    snd (DrawTree_loop recurse g strPath szArr width prevLine df has i arr)
    <> OutOfFuel.
Proof.
  intros Hrec. induction arr as [|e arr IH]; intros i; cbn [DrawTree_loop];
    [discriminate|].
  intros H. apply bind_starved in H.
  destruct H as [H|(line & _ & H)]; [now apply checked_starved in H|].
  apply bind_starved in H. destruct H as [H|(u & _ & H)]; [discriminate|].
  apply bind_starved in H. destruct H as [H|(v & _ & H)]; [|now apply IH in H].
  destruct df; [|discriminate].
  apply bind_starved in H.
  destruct H as [H|(child & Hc & H)]; [now apply checked_starved in H|].
  destruct (child_path strPath (cFileName e)) as [c|] eqn:E; [|discriminate].
  cbn in Hc. inversion Hc; subst c.
  apply child_path_some in E. destruct E as [-> Hlen].
  revert H. apply Hrec; [|assumption].
  rewrite !length_app. simpl. lia.
Qed.

(** With a budget of [STR_MAX] levels the traversal never runs out: each
    level has a longer path than the one above, and a path that does not
    fit [STR_MAX] code units ends the process. *)
Lemma GetDirectoryStructure_budget : forall fuel strPath width prevLine,
  (1 <= fuel)%nat ->
  (STR_MAX <= fuel + length strPath)%nat ->
  snd (GetDirectoryStructure FindFirstFile stale fuel g strPath width prevLine)
  <> OutOfFuel.
Proof.
  induction fuel as [|fuel IH]; intros strPath w p H1 Hlen; [lia|].
  destruct (Nat.le_gt_cases (length strPath + 5) STR_MAX) as [Hle|Hgt];
    [|rewrite GetDirectoryStructure_overflow by assumption; discriminate].
  rewrite GetDirectoryStructure_search by assumption.
  assert (Hrec : forall str w' p',
             (length strPath < length str)%nat ->
             (length str + 1 <= STR_MAX)%nat ->
             snd (GetDirectoryStructure FindFirstFile stale fuel g str w' p')
             <> OutOfFuel)
    by (intros str w' p' Hlt Hfit; apply IH; lia).
  assert (Hdraw : forall arr df,
             snd (DrawTree FindFirstFile stale
                    (GetDirectoryStructure FindFirstFile stale fuel g) g strPath
                    arr w p df) <> OutOfFuel).
  { intros arr df H. unfold DrawTree in H. apply bind_starved in H.
    destruct H as [H|(has & _ & H)]; [now apply HasSubFolder_starved in H|].
    revert H. now apply DrawTree_loop_starved. }
  intros H. apply bind_starved in H.
  destruct H as [H|(u & _ & H)]; [discriminate|].
  destruct (FindFirstFile (strPath ++ L "\*.*")) as [[d next]|]; [|discriminate].
  apply bind_starved in H. destruct H as [H|(v & _ & H)].
  - destruct (bShowFiles g); [now apply Hdraw in H | discriminate].
  - now apply Hdraw in H.
Qed.

(** A run that did not run out of budget is the run of any larger
    budget. *)
Lemma DrawTree_loop_more recurse recurse' strPath szArr width prevLine df has :
  (forall str w p,
      snd (recurse str w p) <> OutOfFuel -> recurse' str w p = recurse str w p) ->
  forall arr i,
    snd (DrawTree_loop recurse g strPath szArr width prevLine df has i arr)
    <> OutOfFuel ->
    DrawTree_loop recurse' g strPath szArr width prevLine df has i arr
    = DrawTree_loop recurse g strPath szArr width prevLine df has i arr.
Proof.
  intros Hrec. induction arr as [|e arr IH]; intros i; cbn [DrawTree_loop];
    [reflexivity|].
  destruct (console_line (bUseAscii g) df has szArr width prevLine i (cFileName e))
    as [line|]; [|reflexivity].
  cbn [checked]. rewrite !bind_ret, !bind_emit. cbn [snd]. intros H.
  destruct df.
  - destruct (child_path strPath (cFileName e)) as [child|]; [|reflexivity].
    cbn [checked] in *. rewrite !bind_ret in *.
    destruct (recurse child ((width + 4) mod UINT_MAX1) line) as [t o] eqn:E.
    assert (Ho : o <> OutOfFuel)
      by (intros ->; apply H; reflexivity).
    rewrite (Hrec child _ line) by (rewrite E; exact Ho). rewrite E.
    destruct o as [[]| |]; try reflexivity.
    cbn [bind] in *.
    destruct (DrawTree_loop recurse g strPath szArr width prevLine true has
                (S i) arr) as [t1 o1] eqn:E1.
    rewrite IH; [now rewrite E1|]. rewrite E1. exact H.
  - rewrite !bind_ret in *. rewrite IH by exact H. reflexivity.
Qed.

Lemma GetDirectoryStructure_more : forall fuel strPath width prevLine,
  snd (GetDirectoryStructure FindFirstFile stale fuel g strPath width prevLine)
  <> OutOfFuel ->
  GetDirectoryStructure FindFirstFile stale (S fuel) g strPath width prevLine
  = GetDirectoryStructure FindFirstFile stale fuel g strPath width prevLine.
Proof.
  induction fuel as [|fuel IH]; intros strPath w p H; [now destruct H|].
  destruct (Nat.le_gt_cases (length strPath + 5) STR_MAX) as [Hle|Hgt];
    [|now rewrite !GetDirectoryStructure_overflow by assumption].
  rewrite GetDirectoryStructure_search in H by assumption.
  rewrite !GetDirectoryStructure_search by assumption.
  rewrite bind_emit in H. cbn [snd] in H.
  apply bind_ext; intros _.
  destruct (FindFirstFile (strPath ++ L "\*.*")) as [[d next]|]; [|reflexivity].
  assert (Hdraw : forall arr df,
             snd (DrawTree FindFirstFile stale
                    (GetDirectoryStructure FindFirstFile stale fuel g) g strPath
                    arr w p df) <> OutOfFuel ->
             DrawTree FindFirstFile stale
               (GetDirectoryStructure FindFirstFile stale (S fuel) g) g strPath
               arr w p df
             = DrawTree FindFirstFile stale
                 (GetDirectoryStructure FindFirstFile stale fuel g) g strPath
                 arr w p df).
  { intros arr df Hd. unfold DrawTree in *.
    destruct (HasSubFolder FindFirstFile stale strPath) as [t0 [has| |]];
      try reflexivity.
    cbn [bind] in *.
    rewrite (DrawTree_loop_more (GetDirectoryStructure FindFirstFile stale fuel g)
               (GetDirectoryStructure FindFirstFile stale (S fuel) g)
               _ _ _ _ _ _ IH); [reflexivity|].
    destruct (DrawTree_loop _ g strPath (length arr) w p df has 0 arr).
    exact Hd. }
  set (files := if bShowFiles g then
                  DrawTree FindFirstFile stale
                    (GetDirectoryStructure FindFirstFile stale fuel g) g strPath
                    (spoof (filter is_file (d :: next))) w p false
                else ret tt) in *.
  assert (Hfiles : snd files <> OutOfFuel).
  { intros E. apply H. destruct files as [t [[]| |]]; try discriminate E.
    reflexivity. }
  assert (Efiles :
            (if bShowFiles g then
               DrawTree FindFirstFile stale
                 (GetDirectoryStructure FindFirstFile stale (S fuel) g) g strPath
                 (spoof (filter is_file (d :: next))) w p false
             else ret tt) = files).
  { subst files. destruct (bShowFiles g); [|reflexivity]. now apply Hdraw. }
  rewrite Efiles. clearbody files. clear Efiles.
  destruct files as [t [[]| |]]; try reflexivity.
  cbn [bind] in *. rewrite Hdraw; [reflexivity|].
  destruct (DrawTree _ _ _ _ _ _ _ _ true). exact H.
Qed.

End Budget.

(** X2. The traversal ends on every host, one with cycles too: a budget of
    [STR_MAX] levels of recursion is never used up, and any larger budget
    gives the same run. *)
Lemma GetDirectoryStructure_total FindFirstFile stale g strPath width prevLine :
  snd (GetDirectoryStructure FindFirstFile stale STR_MAX g strPath width prevLine)
  <> OutOfFuel
  /\ forall k,
       GetDirectoryStructure FindFirstFile stale (k + STR_MAX) g strPath width prevLine
       = GetDirectoryStructure FindFirstFile stale STR_MAX g strPath width prevLine.
Proof.
  assert (H : snd (GetDirectoryStructure FindFirstFile stale STR_MAX g strPath
                     width prevLine) <> OutOfFuel)
    by (apply GetDirectoryStructure_budget; rewrite STR_MAX_eq; lia).
  split; [exact H|].
  induction k as [|k IH]; [reflexivity|].
  cbn [Nat.add]. rewrite GetDirectoryStructure_more; [exact IH|].
  rewrite IH. exact H.
Qed.

(** ** The sample host, run

    [TREE /F /A] and [TREE /F] on [C:\R] write the file, the spacer line,
    the folder [a] with its subtree under a continuation bar, and the last
    folder [b], which cannot be opened and has nothing below it. *)

Example sample_tree_ascii :
  written (GetDirectoryStructure sample zeroed 5 flags_FA (L "C:\R") 1
             (L "          "))
  = [ L "|   f.txt" ++ LF;
      L "|    " ++ LF;
      L "+---a" ++ LF;
      L "|   \---x" ++ LF;
      L "\---b" ++ LF ].
Proof. reflexivity. Qed.

Example sample_tree_unicode :
  written (GetDirectoryStructure sample zeroed 5 flags_F (L "C:\R") 1
             (L "          "))
  = [ u2502 :: L "   f.txt" ++ LF;
      u2502 :: L "    " ++ LF;
      [u251c; u2500; u2500; u2500] ++ L "a" ++ LF;
      u2502 :: L "   " ++ [u2514; u2500; u2500; u2500] ++ L "x" ++ LF;
      [u2514; u2500; u2500; u2500] ++ L "b" ++ LF ].
Proof. reflexivity. Qed.

Example sample_help :
  sample_main [L "tree"; L "/F"; L "-?"; L "C:\R"] = ([Stderr usage], Value 0).
Proof. reflexivity. Qed.

Example sample_invalid_path :
  errors (fst (sample_main [L "tree"; L "C:\Nope"]))
  = [ L "Invalid path - \Nope" ++ LF; L "No subfolders exist" ++ LF ++ LF ].
Proof. reflexivity. Qed.

(** * Further properties *)

(** ** What a traversal does to the outside *)

Lemma bind_events {A B} (P : event -> Prop) (m : io A) (k : A -> io B) :
  Forall P (fst m) -> (forall a, Forall P (fst (k a))) -> Forall P (fst (bind m k)).
Proof.
  destruct m as [t [a| |]]; cbn [bind fst]; intros Hm Hk; try assumption.
  specialize (Hk a). destruct (k a) as [t' o]. cbn [fst] in *.
  apply Forall_app. now split.
Qed.

Lemma checked_events {A} (P : event -> Prop) (o : option A) :
  Forall P (fst (checked o)).
Proof. destruct o; constructor. Qed.

Lemma HasSubFolder_events FindFirstFile stale strPath :
  Forall within_buffers (fst (HasSubFolder FindFirstFile stale strPath)).
Proof.
  destruct (Nat.le_gt_cases (length strPath + 4) STR_MAX) as [Hle|Hgt].
  - rewrite HasSubFolder_fits by assumption. constructor; [|constructor].
    cbn [within_buffers]. rewrite length_app.
    change (length (L "\*.")) with 3%nat. lia.
  - rewrite HasSubFolder_overflow by assumption. constructor.
Qed.

Lemma DrawTree_loop_events recurse g strPath szArr width prevLine df has :
  (forall s w p, Forall within_buffers (fst (recurse s w p))) ->
  forall arr i,
    Forall within_buffers
      (fst (DrawTree_loop recurse g strPath szArr width prevLine df has i arr)).
Proof.
  intros Hrec. induction arr as [|e arr IH]; intros i; cbn [DrawTree_loop];
    [constructor|].
  destruct (console_line (bUseAscii g) df has szArr width prevLine i (cFileName e))
    as [line|] eqn:E; [|constructor].
  apply console_line_some in E. destruct E as [_ Hlen].
  cbn [checked]. rewrite bind_ret.
  apply bind_events; [constructor; [now exists line | constructor]|]. intros _.
  apply bind_events; [|intros _; apply IH].
  destruct df; [|constructor].
  apply bind_events; [apply checked_events|]. intros child. apply Hrec.
Qed.

Lemma GetDirectoryStructure_events FindFirstFile stale g :
  forall fuel strPath width prevLine,
    Forall within_buffers
      (fst (GetDirectoryStructure FindFirstFile stale fuel g strPath width prevLine)).
Proof.
  induction fuel as [|fuel IH]; intros strPath w p; [constructor|].
  destruct (Nat.le_gt_cases (length strPath + 5) STR_MAX) as [Hle|Hgt];
    [|rewrite GetDirectoryStructure_overflow by assumption; constructor].
  rewrite GetDirectoryStructure_search by assumption.
  assert (Hdraw : forall arr df,
             Forall within_buffers
               (fst (DrawTree FindFirstFile stale
                       (GetDirectoryStructure FindFirstFile stale fuel g) g strPath
                       arr w p df))).
  { intros arr df. unfold DrawTree.
    apply bind_events; [apply HasSubFolder_events|]. intros has.
    apply DrawTree_loop_events. intros s w' p'. apply IH. }
  apply bind_events.
  - constructor; [|constructor]. cbn [within_buffers]. rewrite length_app.
    change (length (L "\*.*")) with 4%nat. lia.
  - intros _. destruct (FindFirstFile (strPath ++ L "\*.*")) as [[d next]|];
      [|constructor].
    apply bind_events; [|intros _; apply Hdraw].
    destruct (bShowFiles g); [apply Hdraw | constructor].
Qed.

(** X3. Whatever the host and however a traversal ends, every search it
    started has a pattern, and every line it wrote a text, that fits a
    buffer of [STR_MAX] code units with its terminator; on its way it
    wrote nothing to the error stream. *)
Theorem traversal_within_buffers :
  forall FindFirstFile stale fuel g strPath width prevLine e,
    In e (fst (GetDirectoryStructure FindFirstFile stale fuel g strPath width
                 prevLine)) ->
    match e with
    | FindFirst pattern => (length pattern < STR_MAX)%nat
    | Stdout text =>
        (length text <= STR_MAX)%nat /\ exists line, text = line ++ LF
    | Stderr _ => False
    end.
Proof.
  intros FS stale fuel g strPath w p e He.
  pose proof (GetDirectoryStructure_events FS stale g fuel strPath w p) as H.
  rewrite Forall_forall in H. specialize (H e He).
  destruct e as [text|text|pattern]; cbn [within_buffers] in H.
  - destruct H as (line & -> & Hlen). split; [|now exists line].
    rewrite length_app. simpl. lia.
  - exact H.
  - lia.
Qed.

Lemma traversal_within_buffers_witness :
  match FindFirst (L "C:\R\a\*.*") with
  | FindFirst pattern => (length pattern < STR_MAX)%nat
  | Stdout text => (length text <= STR_MAX)%nat /\ exists line, text = line ++ LF
  | Stderr _ => False
  end.
Proof.
  apply (traversal_within_buffers sample zeroed 5 flags_A (L "C:\R") 1
           (L "          ") (FindFirst (L "C:\R\a\*.*"))).
  vm_compute. repeat (first [left; reflexivity | right]).
Defined.

(** ** Width, depth and the reads of the previous line *)

Lemma columns_small d :
  (4 * d + 5 <= STR_MAX)%nat -> columns (4 * Z.of_nat d + 1) = (4 * d)%nat.
Proof.
  intros H. unfold columns. rewrite STR_MAX_eq in H.
  replace (4 * Z.of_nat d + 1 - 1) with (Z.of_nat (4 * d)) by lia.
  rewrite Z.mod_small; [apply Nat2Z.id|].
  unfold UINT_MAX1. split; [lia|].
  apply Z.lt_le_trans with (m := 2048); [lia|]. discriminate.
Qed.

Lemma width_next d :
  (4 * d + 5 <= STR_MAX)%nat ->
  (4 * Z.of_nat d + 1 + 4) mod UINT_MAX1 = 4 * Z.of_nat (S d) + 1.
Proof.
  intros H. rewrite STR_MAX_eq in H. rewrite Z.mod_small; [lia|].
  unfold UINT_MAX1. split; [lia|].
  apply Z.lt_le_trans with (m := 4096); [lia|]. discriminate.
Qed.

Lemma folder_segment_length ascii has n i name :
  (4 <= length (StringCchPrintf STR_MAX (segment ascii true has n i name)))%nat.
Proof.
  unfold StringCchPrintf. rewrite length_firstn, segment_folder, length_app,
    connector_length, STR_MAX_eq. lia.
Qed.

(** X4. Wherever the program renders, the width is four times the depth
    plus one, the prefix has four columns for each level above, and the
    indentation loop reads the previous line within its length. *)
Theorem previous_line_read_within :
  forall ascii width prevLine,
    rendered_under ascii width prevLine ->
    exists depth : nat,
      width = 4 * Z.of_nat depth + 1
      /\ columns width = (4 * depth)%nat
      /\ (columns width <= length prevLine)%nat.
Proof.
  intros ascii w p H. induction H as [|w p has n i name line Hunder IH Hline].
  - exists 0%nat. repeat split. rewrite columns_1. apply Nat.le_0_l.
  - destruct IH as (d & -> & Hcol & _).
    apply console_line_some in Hline. destruct Hline as [-> Hlen].
    pose proof (folder_segment_length ascii has n i name) as Hseg.
    rewrite length_app, prefix_of_length, Hcol in Hlen.
    assert (Hd : (4 * d + 5 <= STR_MAX)%nat) by lia.
    exists (S d). rewrite width_next by assumption.
    split; [reflexivity|].
    assert (Hc : columns (4 * Z.of_nat (S d) + 1) = (4 * S d)%nat).
    { unfold columns.
      replace (4 * Z.of_nat (S d) + 1 - 1) with (Z.of_nat (4 * S d)) by lia.
      rewrite Z.mod_small; [apply Nat2Z.id|].
      rewrite STR_MAX_eq in Hd. unfold UINT_MAX1. split; [lia|].
      apply Z.lt_le_trans with (m := 4096); [lia|]. discriminate. }
    rewrite Hc. split; [reflexivity|].
    rewrite length_app, prefix_of_length, Hcol. lia.
Qed.

Lemma previous_line_read_within_witness :
  exists depth : nat,
    5 = 4 * Z.of_nat depth + 1
    /\ columns 5 = (4 * depth)%nat
    /\ (columns 5 <= length (L "+---a"))%nat.
Proof.
  apply (previous_line_read_within true 5 (L "+---a")).
  apply (under_folder true 1 (L "          ") false 2 0 (L "a") (L "+---a")).
  - apply under_wmain.
  - reflexivity.
Defined.

(** ** When a line does not fit *)

(** X5. [DrawTree] gets to print the line of an entry exactly when the
    prefix and the formatted text fit [consoleOut] with the terminator;
    otherwise a [wcscat_s] ends the process before the line is written. *)
Theorem line_composed_iff_it_fits :
  forall ascii drawfolder bHasSubFolder szArr width prevLine i name,
    let text := StringCchPrintf STR_MAX
                  (segment ascii drawfolder bHasSubFolder szArr i name) in
    (console_line ascii drawfolder bHasSubFolder szArr width prevLine i name = None
     <-> (STR_MAX < columns width + length text + 1)%nat)
    /\ (forall consoleOut,
          console_line ascii drawfolder bHasSubFolder szArr width prevLine i name
          = Some consoleOut ->
          length consoleOut = (columns width + length text)%nat).
Proof.
  intros ascii df has n w p i name text. split; [split|].
  - intros H.
    destruct (Nat.le_gt_cases (columns w + length text + 1) STR_MAX) as [Hle|Hgt];
      [|assumption].
    subst text. rewrite console_line_fits in H by assumption. discriminate.
  - intros H.
    destruct (console_line ascii df has n w p i name) as [line|] eqn:E;
      [|reflexivity].
    apply console_line_some in E. destruct E as [-> Hlen].
    rewrite length_app, prefix_of_length in Hlen. subst text. lia.
  - intros line E. apply console_line_some in E. destruct E as [-> _].
    now rewrite length_app, prefix_of_length.
Qed.

Lemma line_composed_iff_it_fits_witness :
  length (L "|   \---x")
  = (columns 5
     + length (StringCchPrintf STR_MAX (segment true true false 1 0 (L "x"))))%nat.
Proof.
  apply (proj2 (line_composed_iff_it_fits true true false 1 5 (L "+---a") 0 (L "x"))).
  reflexivity.
Defined.

(** ** The order of the enumeration *)

(** X6. The two arrays hold the entries in the order the search gave them,
    each entry once for each time it was found: nothing is sorted, dropped
    or doubled, apart from [.] and [..]. *)
Theorem enumeration_order_kept :
  forall found,
    collect found [] []
    = (filter (fun e => is_directory e && negb (is_dots e)) found,
       filter (fun e => negb (is_directory e)) found).
Proof.
  intros found.
  enough (H : forall arrFolder arrFile,
             collect found arrFolder arrFile
             = (arrFolder ++ filter (fun e => is_directory e && negb (is_dots e)) found,
                arrFile ++ filter (fun e => negb (is_directory e)) found))
    by apply (H [] []).
  induction found as [|e found IH]; intros arrFolder arrFile; cbn [collect filter].
  - now rewrite !app_nil_r.
  - destruct (is_directory e); cbn [andb negb].
    + destruct (is_dots e); cbn [negb]; rewrite IH; [reflexivity|].
      now rewrite <- app_assoc.
    + rewrite IH. now rewrite <- app_assoc.
Qed.

(** ** A directory with nothing to show *)

(** X7. A directory that opens and holds no subfolder, and either no file
    or is walked without [bShowFiles], writes nothing: the traversal
    returns after its searches. *)
Theorem empty_directory_writes_nothing :
  forall FindFirstFile stale fuel g strPath width prevLine FindFileData next,
    (length strPath + 5 <= STR_MAX)%nat ->
    FindFirstFile (strPath ++ L "\*.*") = Some (FindFileData, next) ->
    filter is_subfolder (FindFileData :: next) = [] ->
    bShowFiles g = false \/ filter is_file (FindFileData :: next) = [] ->
    written (GetDirectoryStructure FindFirstFile stale (S fuel) g strPath width
               prevLine) = []
    /\ snd (GetDirectoryStructure FindFirstFile stale (S fuel) g strPath width
              prevLine) = Value tt.
Proof.
  intros FS stale fuel g strPath w p d next Hlen Hfs Hfolders Hfiles.
  rewrite GetDirectoryStructure_search by assumption.
  rewrite Hfs, Hfolders.
  assert (Hdraw : forall df,
             DrawTree FS stale (GetDirectoryStructure FS stale fuel g) g strPath
               [] w p df
             = ([FindFirst (strPath ++ L "\*.")], Value tt)).
  { intros df. unfold DrawTree. rewrite HasSubFolder_fits by lia.
    rewrite bind_ret_trace. reflexivity. }
  assert (Hshow : (if bShowFiles g then
                     DrawTree FS stale (GetDirectoryStructure FS stale fuel g) g
                       strPath (spoof (filter is_file (d :: next))) w p false
                   else ret tt)
                  = (if bShowFiles g then [FindFirst (strPath ++ L "\*.")] else [],
                     Value tt)).
  { destruct (bShowFiles g); [|reflexivity].
    destruct Hfiles as [Hf|Hf]; [discriminate|]. rewrite Hf. apply Hdraw. }
  rewrite Hshow, Hdraw. unfold written.
  destruct (bShowFiles g); split; reflexivity.
Qed.

Lemma empty_directory_writes_nothing_witness :
  written (GetDirectoryStructure sample zeroed 3 flags_FA (L "C:\R\a\x") 9
             (L "|   \---x")) = []
  /\ snd (GetDirectoryStructure sample zeroed 3 flags_FA (L "C:\R\a\x") 9
            (L "|   \---x")) = Value tt.
Proof.
  apply (empty_directory_writes_nothing sample zeroed 2 flags_FA (L "C:\R\a\x") 9
           (L "|   \---x") (folder ".") [folder ".."]).
  - rewrite STR_MAX_eq. simpl. lia.
  - reflexivity.
  - reflexivity.
  - right. reflexivity.
Defined.

(** ** The probe of a directory that opens *)

Lemma HasSubFolder_opened_witness :
  exists b,
    HasSubFolder sample leftover (L "C:\R\a\x")
    = ([FindFirst (L "C:\R\a\x" ++ L "\*.")], Value b)
    /\ (b = true <->
        exists e, In e (folder "." :: [folder ".."]) /\ is_directory e = true
                  /\ cFileName e <> L "." /\ cFileName e <> L "..").
Proof.
  apply (HasSubFolder_opened sample leftover (L "C:\R\a\x") (folder ".")
           [folder ".."]).
  - rewrite STR_MAX_eq. simpl. lia.
  - reflexivity.
Defined.

(** ** The command line, read to its end *)

Section CommandLineRead.

Variable FindFirstFile : wstring -> option (WIN32_FIND_DATA * list WIN32_FIND_DATA).
Variable stale : wstring -> WIN32_FIND_DATA.
Variable wfullpath : wstring -> wstring.
Variable dwName : wstring.
Variable dwSerial : Z.
Variable CharUpper : wstring -> wstring.
Variable SetCurrentDirectory : wstring -> option wstring.
Variable GetCurrentDirectory : wstring.
Variable getdrive : Z.

Let main := wmain FindFirstFile stale wfullpath dwName dwSerial CharUpper
              SetCurrentDirectory GetCurrentDirectory getdrive.

(** Switches other than the help switch only set flags. *)
Lemma parse_args_app_switches rest : forall pre g specifiedPath,
  Forall (fun a => is_switch a = true /\ is_help a = false) pre ->
  parse_args wfullpath (pre ++ rest) g specifiedPath
  = parse_args wfullpath rest
      (mkGlobals (bShowFiles g || existsb is_F pre)
         (bUseAscii g || existsb is_A pre) (bSetPath g))
      specifiedPath.
Proof.
  induction pre as [|a pre IH]; intros g sp H.
  - cbn [app existsb]. rewrite !orb_false_r. now destruct g.
  - inversion H as [|? ? [Hs Hh] Hpre]; subst.
    unfold is_help in Hh. rewrite Hs in Hh. cbn [andb] in Hh.
    cbn [app parse_args existsb]. unfold is_F at 1, is_A at 1.
    rewrite Hs. cbn [andb].
    unfold is_switch in Hs. rewrite Hs, Hh.
    destruct (Z.eqb_spec (towlower (nth 1 a 0)) (wc "f")) as [E|_].
    + rewrite IH by assumption. rewrite E. cbn [bShowFiles bUseAscii bSetPath].
      cbn [orb]. change (wc "f" =? wc "a") with false. cbn [orb].
      now rewrite orb_true_r.
    + destruct (Z.eqb_spec (towlower (nth 1 a 0)) (wc "a")) as [E|_].
      * rewrite IH by assumption. cbn [bShowFiles bUseAscii bSetPath orb].
        now rewrite orb_true_r.
      * rewrite IH by assumption. reflexivity.
Qed.

Lemma parse_args_flags args :
  Forall (fun a => is_switch a = true /\ is_help a = false) args ->
  parse_args wfullpath args (mkGlobals false false false) []
  = ret (Parsed (flags_of args false) []).
Proof.
  intros H. rewrite <- (app_nil_r args) at 1.
  rewrite parse_args_app_switches by assumption. reflexivity.
Qed.

(** Up to the first argument that is not a switch, and past it. *)
Lemma parse_args_path pre path post :
  Forall (fun a => is_switch a = true /\ is_help a = false) (pre ++ post) ->
  is_switch path = false ->
  parse_args wfullpath (pre ++ path :: post) (mkGlobals false false false) []
  = ret (Parsed (flags_of (pre ++ post) true) (wfullpath path)).
Proof.
  intros Hsw Hpath. apply Forall_app in Hsw. destruct Hsw as [Hpre Hpost].
  rewrite parse_args_app_switches by assumption.
  cbn [parse_args bShowFiles bUseAscii bSetPath orb negb].
  unfold is_switch in Hpath. rewrite Hpath.
  rewrite <- (app_nil_r post) at 1.
  rewrite parse_args_app_switches by assumption.
  cbn [parse_args bShowFiles bUseAscii bSetPath].
  unfold flags_of. now rewrite !existsb_app.
Qed.

(** X8. Switches are read by the character after the [-] or [/] alone, in
    either case, in any order and any number of times.  A command line of
    switches, none of them the help switch, writes the banner and the drive
    line, and walks the current directory with the flags the switches set. *)
Theorem switches_set_the_flags :
  forall fuel argv0 switches,
    Forall (fun a => is_switch a = true /\ is_help a = false) switches ->
    main fuel (argv0 :: switches)
    = bind (banner dwName dwSerial
            ++ [Stdout ([(getdrive + wc "A" - 1) mod 65536] ++ L ":." ++ LF)],
            Value tt)
        (fun _ => walk FindFirstFile stale fuel (flags_of switches false)
                    GetCurrentDirectory).
Proof.
  intros fuel argv0 switches H. subst main. unfold wmain. cbn [tl].
  rewrite parse_args_flags by assumption. rewrite bind_ret.
  cbn [flags_of bSetPath]. rewrite !bind_emit, bind_ret_trace.
  unfold banner, flags_of. cbn [fst snd app]. reflexivity.
Qed.

(** X9. The first argument that is not a switch is the path: made
    absolute, put in upper case and written after the banner, it becomes
    the current directory, and the walk starts from what the current
    directory then is, with the flags of the switches before and after. *)
Theorem path_is_made_current :
  forall fuel argv0 pre path post strPath,
    Forall (fun a => is_switch a = true /\ is_help a = false) (pre ++ post) ->
    is_switch path = false ->
    SetCurrentDirectory (CharUpper (wfullpath path)) = Some strPath ->
    main fuel (argv0 :: pre ++ path :: post)
    = bind (banner dwName dwSerial
            ++ [Stdout (CharUpper (wfullpath path) ++ LF)], Value tt)
        (fun _ => walk FindFirstFile stale fuel (flags_of (pre ++ post) true)
                    strPath).
Proof.
  intros fuel argv0 pre path post strPath Hsw Hpath Hcd.
  subst main. unfold wmain. cbn [tl].
  rewrite parse_args_path by assumption. rewrite bind_ret.
  cbn [flags_of bSetPath]. rewrite Hcd. rewrite !bind_emit, bind_ret_trace.
  unfold banner, flags_of. cbn [fst snd app]. reflexivity.
Qed.

(** X10. When the path cannot be made the current directory, the program
    writes the banner and the path, reports the part of the path from its
    first backslash on as invalid, adds that no subfolders exist, and
    returns 0 without a single search. *)
Theorem invalid_path_reported :
  forall fuel argv0 pre path post,
    Forall (fun a => is_switch a = true /\ is_help a = false) (pre ++ post) ->
    is_switch path = false ->
    SetCurrentDirectory (CharUpper (wfullpath path)) = None ->
    main fuel (argv0 :: pre ++ path :: post)
    = (banner dwName dwSerial
       ++ [ Stdout (CharUpper (wfullpath path) ++ LF);
            Stderr (L "Invalid path - "
                    ++ fmt_s (wcschr (CharUpper (wfullpath path)) (wc "\")) ++ LF);
            Stderr (L "No subfolders exist" ++ LF ++ LF) ],
       Value 0).
Proof.
  intros fuel argv0 pre path post Hsw Hpath Hcd.
  subst main. unfold wmain. cbn [tl].
  rewrite parse_args_path by assumption. rewrite bind_ret.
  cbn [flags_of bSetPath]. rewrite Hcd. rewrite !bind_emit.
  reflexivity.
Qed.

Lemma parse_args_help help rest : forall pre g specifiedPath,
  is_help help = true ->
  Forall (fun a => is_help a = false) pre ->
  (length (filter (fun a => negb (is_switch a)) pre)
   <= if bSetPath g then 0 else 1)%nat ->
  parse_args wfullpath (pre ++ help :: rest) g specifiedPath
  = ([Stderr usage], Value (Exit 0)).
Proof.
  intros pre g sp Hhelp. revert g sp.
  induction pre as [|a pre IH]; intros g sp Hpre Hcount.
  - unfold is_help, is_switch in Hhelp. apply andb_true_iff in Hhelp.
    destruct Hhelp as [Hs Hq]. cbn [app parse_args]. now rewrite Hs, Hq.
  - inversion Hpre as [|? ? Ha Hpre']; subst.
    cbn [app parse_args]. cbn [filter] in Hcount.
    unfold is_help in Ha. unfold is_switch in *.
    destruct ((nth 0 a 0 =? wc "-") || (nth 0 a 0 =? wc "/")).
    + cbn [andb negb] in *. rewrite Ha.
      destruct (towlower (nth 1 a 0) =? wc "f");
        [|destruct (towlower (nth 1 a 0) =? wc "a")];
        apply IH; assumption.
    + cbn [negb length] in Hcount.
      destruct (bSetPath g); [lia|]. cbn [negb].
      apply IH; [assumption|]. cbn [bSetPath]. lia.
Qed.

(** X11. A help switch, [-?] or [/?], met before a second argument that is
    not a switch, writes the usage text to the error stream and ends the
    program with 0: no banner is written and no search is started. *)
Theorem help_switch_prints_usage :
  forall fuel argv0 pre help rest,
    is_help help = true ->
    Forall (fun a => is_help a = false) pre ->
    (length (filter (fun a => negb (is_switch a)) pre) <= 1)%nat ->
    main fuel (argv0 :: pre ++ help :: rest) = ([Stderr usage], Value 0).
Proof.
  intros fuel argv0 pre help rest Hhelp Hpre Hcount.
  subst main. unfold wmain. cbn [tl].
  rewrite parse_args_help by assumption. reflexivity.
Qed.

(** X12. After a traversal that returned, the program probes the directory
    it walked; when the search of the probe opens, ["No subfolders exist"]
    goes to the error stream exactly when no entry found is a directory
    other than [.] and [..], and the program returns 0. *)
Theorem no_subfolders_message :
  forall fuel g strPath FindFileData next t,
    FindFirstFile (strPath ++ L "\*.") = Some (FindFileData, next) ->
    GetDirectoryStructure FindFirstFile stale fuel g strPath 1 (L "          ")
    = (t, Value tt) ->
    walk FindFirstFile stale fuel g strPath
    = (t ++ FindFirst (strPath ++ L "\*.")
         :: (if existsb (fun e => is_directory e && negb (is_dots e))
                  (FindFileData :: next)
             then []
             else [Stderr (L "No subfolders exist" ++ LF ++ LF)]),
       Value 0).
Proof.
  intros fuel g strPath d next t Hfs Hrun.
  destruct (GetDirectoryStructure_value _ _ _ _ _ _ _ _ Hrun) as (_ & _ & Hlen).
  unfold walk. rewrite Hrun, bind_ret_trace.
  rewrite HasSubFolder_fits by lia. rewrite bind_ret_trace.
  unfold probe_answer. rewrite Hfs, HasSubFolder_scan_existsb.
  fold is_subfolder.
  change (fun e => is_directory e && negb (is_dots e)) with is_subfolder.
  destruct (existsb is_subfolder (d :: next)); reflexivity.
Qed.

End CommandLineRead.

Lemma switches_set_the_flags_witness :
  sample_main [L "tree"; L "/F"; L "-a"; L "/x"; L "/Files"]
  = bind (banner (L "DATA") 0x1234ABCD
          ++ [Stdout ([(3 + wc "A" - 1) mod 65536] ++ L ":." ++ LF)], Value tt)
      (fun _ => walk sample zeroed 5
                  (flags_of [L "/F"; L "-a"; L "/x"; L "/Files"] false) (L "C:\R")).
Proof.
  apply (switches_set_the_flags sample zeroed (fun p => p) (L "DATA") 0x1234ABCD
           (fun p => p) sample_chdir (L "C:\R") 3 5 (L "tree")
           [L "/F"; L "-a"; L "/x"; L "/Files"]).
  repeat constructor.
Defined.

Lemma path_is_made_current_witness :
  sample_main [L "tree"; L "/a"; L "C:\R"; L "/F"]
  = bind (banner (L "DATA") 0x1234ABCD ++ [Stdout (L "C:\R" ++ LF)], Value tt)
      (fun _ => walk sample zeroed 5 (flags_of ([L "/a"] ++ [L "/F"]) true)
                  (L "C:\R")).
Proof.
  apply (path_is_made_current sample zeroed (fun p => p) (L "DATA") 0x1234ABCD
           (fun p => p) sample_chdir (L "C:\R") 3 5 (L "tree")
           [L "/a"] (L "C:\R") [L "/F"] (L "C:\R")).
  - repeat constructor.
  - reflexivity.
  - reflexivity.
Defined.

Lemma invalid_path_reported_witness :
  sample_main [L "tree"; L "/a"; L "C:\Nope"]
  = (banner (L "DATA") 0x1234ABCD
     ++ [ Stdout (L "C:\Nope" ++ LF);
          Stderr (L "Invalid path - " ++ fmt_s (wcschr (L "C:\Nope") (wc "\")) ++ LF);
          Stderr (L "No subfolders exist" ++ LF ++ LF) ],
     Value 0).
Proof.
  apply (invalid_path_reported sample zeroed (fun p => p) (L "DATA") 0x1234ABCD
           (fun p => p) sample_chdir (L "C:\R") 3 5 (L "tree")
           [L "/a"] (L "C:\Nope") []).
  - repeat constructor.
  - reflexivity.
  - reflexivity.
Defined.

Lemma help_switch_prints_usage_witness :
  sample_main [L "tree"; L "/F"; L "C:\R"; L "-?"; L "more"]
  = ([Stderr usage], Value 0).
Proof.
  apply (help_switch_prints_usage sample zeroed (fun p => p) (L "DATA") 0x1234ABCD
           (fun p => p) sample_chdir (L "C:\R") 3 5 (L "tree")
           [L "/F"; L "C:\R"] (L "-?") [L "more"]).
  - reflexivity.
  - repeat constructor.
  - simpl. lia.
Defined.

Lemma no_subfolders_message_witness :
  walk sample zeroed 5 flags_U (L "C:\R\a\x")
  = (fst (GetDirectoryStructure sample zeroed 5 flags_U (L "C:\R\a\x") 1
            (L "          "))
     ++ FindFirst (L "C:\R\a\x" ++ L "\*.")
        :: (if existsb (fun e => is_directory e && negb (is_dots e))
                 (folder "." :: [folder ".."])
            then []
            else [Stderr (L "No subfolders exist" ++ LF ++ LF)]),
     Value 0).
Proof.
  apply (no_subfolders_message sample zeroed 5 flags_U (L "C:\R\a\x")
           (folder ".") [folder ".."]).
  - reflexivity.
  - vm_compute. reflexivity.
Defined.

(** ** Without the file listing *)

Section WithoutFiles.

Variable FS1 FS2 : wstring -> option (WIN32_FIND_DATA * list WIN32_FIND_DATA).
Variable stale1 stale2 : wstring -> WIN32_FIND_DATA.
Hypothesis same_folders :
  forall strPath, folders_of FS1 (strPath ++ L "\*.*")
                  = folders_of FS2 (strPath ++ L "\*.*").

Lemma console_line_folder_probe ascii has has' n w p i name :
  console_line ascii true has n w p i name
  = console_line ascii true has' n w p i name.
Proof. unfold console_line. now rewrite !segment_folder. Qed.

Lemma DrawTree_loop_folder_probe recurse recurse' g strPath szArr width prevLine
    has has' :
  (forall s w p, recurse s w p = recurse' s w p) ->
  forall arr i,
    DrawTree_loop recurse g strPath szArr width prevLine true has i arr
    = DrawTree_loop recurse' g strPath szArr width prevLine true has' i arr.
Proof.
  intros Hrec. induction arr as [|e arr IH]; intros i; cbn [DrawTree_loop];
    [reflexivity|].
  rewrite (console_line_folder_probe _ has has').
  apply bind_ext; intros line. apply bind_ext; intros _.
  rewrite IH. f_equal. apply bind_ext; intros child. apply Hrec.
Qed.

Lemma DrawTree_folder_hosts recurse recurse' g strPath arr width prevLine :
  (forall s w p, recurse s w p = recurse' s w p) ->
  DrawTree FS1 stale1 recurse g strPath arr width prevLine true
  = DrawTree FS2 stale2 recurse' g strPath arr width prevLine true.
Proof.
  intros Hrec. unfold DrawTree.
  destruct (Nat.le_gt_cases (length strPath + 4) STR_MAX) as [Hle|Hgt].
  - rewrite !HasSubFolder_fits by assumption. rewrite !bind_ret_trace.
    now rewrite (DrawTree_loop_folder_probe recurse recurse' _ _ _ _ _ _
                   (probe_answer FS2 stale2 strPath) Hrec).
  - now rewrite !HasSubFolder_overflow by assumption.
Qed.

(** X13. Without [bShowFiles], the files of the host and the answers of the
    probe make no difference: on two hosts whose searches open on the same
    patterns and yield the same subfolders, the traversal does the same,
    search for search and line for line. *)
Theorem files_do_not_show_without_F :
  forall fuel g strPath width prevLine,
    bShowFiles g = false ->
    GetDirectoryStructure FS1 stale1 fuel g strPath width prevLine
    = GetDirectoryStructure FS2 stale2 fuel g strPath width prevLine.
Proof.
  induction fuel as [|fuel IH]; intros g strPath w p Hshow; [reflexivity|].
  destruct (Nat.le_gt_cases (length strPath + 5) STR_MAX) as [Hle|Hgt];
    [|now rewrite !GetDirectoryStructure_overflow by assumption].
  rewrite !GetDirectoryStructure_search by assumption.
  apply bind_ext; intros _.
  pose proof (same_folders strPath) as Hsame. unfold folders_of in Hsame.
  destruct (FS1 (strPath ++ L "\*.*")) as [[d1 next1]|],
           (FS2 (strPath ++ L "\*.*")) as [[d2 next2]|];
    try discriminate; [|reflexivity].
  assert (Hfolders : filter is_subfolder (d1 :: next1)
                     = filter is_subfolder (d2 :: next2)) by congruence.
  rewrite Hshow, Hfolders.
  apply bind_ext; intros _.
  apply DrawTree_folder_hosts. intros s w' p'. now apply IH.
Qed.

End WithoutFiles.

Lemma strip_app suffix s : strip suffix (s ++ suffix) = Some s.
Proof.
  unfold strip. rewrite length_app, Nat.add_sub.
  rewrite skipn_app, skipn_all, Nat.sub_diag. cbn [skipn app].
  rewrite firstn_app, firstn_all, Nat.sub_diag. cbn [firstn].
  rewrite app_nil_r. unfold wcs_eqb.
  destruct (list_eq_dec Z.eq_dec suffix suffix); [reflexivity|congruence].
Qed.

Lemma host_search table strPath :
  host table (strPath ++ L "\*.*")
  = match lookup table strPath with
    | Some (e :: es) => Some (e, es)
    | _ => None
    end.
Proof. unfold host. now rewrite strip_app. Qed.

Lemma files_do_not_show_without_F_witness :
  GetDirectoryStructure sample zeroed 5 flags_A (L "C:\R") 1 (L "          ")
  = GetDirectoryStructure other_files leftover 5 flags_A (L "C:\R") 1
      (L "          ").
Proof.
  apply (files_do_not_show_without_F sample other_files zeroed leftover).
  - intros strPath. unfold folders_of, sample, other_files, sample_table.
    rewrite !host_search. cbn [lookup].
    destruct (wcs_eqb (L "C:\R") strPath); [reflexivity|].
    destruct (wcs_eqb (L "C:\R\a") strPath); [reflexivity|].
    destruct (wcs_eqb (L "C:\R\a\x") strPath); reflexivity.
  - reflexivity.
Defined.

(** ** On a host that keeps to MAX_PATH *)

Lemma bind_crashed {A B} (m : io A) (k : A -> io B) :
  snd (bind m k) = InvalidParameter ->
  snd m = InvalidParameter \/ exists a, snd m = Value a /\ snd (k a) = InvalidParameter.
Proof.
  destruct m as [t [a| |]]; cbn [bind snd]; try discriminate; auto.
  destruct (k a) as [t' o] eqn:E. cbn [snd]. intros ->.
  right. exists a. rewrite E. auto.
Qed.

Section Returns.

Variable FindFirstFile : wstring -> option (WIN32_FIND_DATA * list WIN32_FIND_DATA).
Variable stale : wstring -> WIN32_FIND_DATA.
Variable g : globals.
Hypothesis host_keeps : keeps_MAX_PATH FindFirstFile.

Lemma DrawTree_loop_no_crash recurse strPath szArr depth prevLine df has :
  (4 * depth + 5 + MAX_PATH <= STR_MAX)%nat ->
  (length strPath + 1 + MAX_PATH <= STR_MAX)%nat ->
  (forall name line,
      fits name ->
      snd (recurse (strPath ++ L "\" ++ name) (4 * Z.of_nat (S depth) + 1) line)
      <> InvalidParameter) ->
  forall arr i,
    Forall (fun e => fits (cFileName e)) arr ->
    snd (DrawTree_loop recurse g strPath szArr (4 * Z.of_nat depth + 1) prevLine
           df has i arr) <> InvalidParameter.
Proof.
  intros Hd Hpath Hrec. induction arr as [|e arr IH]; intros i Hfit;
    cbn [DrawTree_loop]; [discriminate|].
  inversion Hfit as [|? ? He Harr]; subst.
  rewrite console_line_fits.
  - cbn [checked]. rewrite bind_ret, bind_emit. cbn [snd]. intros H.
    apply bind_crashed in H. destruct H as [H|(u & _ & H)]; [|now apply IH in H].
    destruct df; [|discriminate].
    rewrite child_path_fits in H by (unfold fits in He; lia).
    cbn [checked] in H. rewrite bind_ret in H.
    rewrite width_next in H by lia. revert H. now apply Hrec.
  - rewrite StringCchPrintf_segment by assumption.
    pose proof (segment_length (bUseAscii g) df has szArr i (cFileName e)).
    rewrite columns_small by lia. unfold fits in He. lia.
Qed.

Lemma GetDirectoryStructure_no_crash : forall fuel depth strPath prevLine,
  (depth <= length strPath)%nat ->
  (length strPath + 5 <= STR_MAX)%nat ->
  snd (GetDirectoryStructure FindFirstFile stale fuel g strPath
         (4 * Z.of_nat depth + 1) prevLine) <> InvalidParameter.
Proof.
  induction fuel as [|fuel IH]; intros d strPath p Hd Hlen; [discriminate|].
  rewrite GetDirectoryStructure_search by assumption.
  rewrite bind_emit. cbn [snd].
  destruct (FindFirstFile (strPath ++ L "\*.*")) as [[e next]|] eqn:E;
    [|discriminate].
  destruct (host_keeps _ _ _ E) as [Hpat Hnames].
  rewrite length_app in Hpat. change (length (L "\*.*")) with 4%nat in Hpat.
  rewrite MAX_PATH_eq in Hpat.
  assert (Hdraw : forall arr df,
             Forall (fun x => fits (cFileName x)) arr ->
             snd (DrawTree FindFirstFile stale
                    (GetDirectoryStructure FindFirstFile stale fuel g) g strPath
                    arr (4 * Z.of_nat d + 1) p df) <> InvalidParameter).
  { intros arr df Harr. unfold DrawTree.
    rewrite HasSubFolder_fits by lia. rewrite bind_ret_trace. cbn [snd].
    apply DrawTree_loop_no_crash; try assumption.
    - rewrite MAX_PATH_eq, STR_MAX_eq. lia.
    - rewrite MAX_PATH_eq, STR_MAX_eq. lia.
    - intros name line Hname. apply IH.
      + rewrite !length_app. simpl. lia.
      + rewrite !length_app. unfold fits in Hname.
        rewrite MAX_PATH_eq in Hname. rewrite STR_MAX_eq. simpl. lia. }
  assert (Hsub : forall f, Forall (fun x => fits (cFileName x)) (filter f (e :: next))).
  { intros f. apply Forall_forall. intros x Hx. apply filter_In in Hx.
    rewrite Forall_forall in Hnames. apply Hnames, Hx. }
  intros H. apply bind_crashed in H. destruct H as [H|(u & _ & H)].
  - destruct (bShowFiles g); [|discriminate].
    revert H. apply Hdraw, spoof_fits, Hsub.
  - revert H. apply Hdraw, Hsub.
Qed.

(** X14. On a host that keeps to [MAX_PATH], from a directory whose search
    pattern fits the buffer, the traversal returns: no line and no path
    outgrows its buffer, and the recursion ends. *)
Theorem traversal_returns_on_MAX_PATH_host :
  forall strPath prevLine,
    (length strPath + 5 <= STR_MAX)%nat ->
    exists t,
      GetDirectoryStructure FindFirstFile stale STR_MAX g strPath 1 prevLine
      = (t, Value tt).
Proof.
  intros strPath p Hlen.
  pose proof (GetDirectoryStructure_no_crash STR_MAX 0 strPath p
                (Nat.le_0_l _) Hlen) as Hcrash.
  assert (Hfuel : snd (GetDirectoryStructure FindFirstFile stale STR_MAX g strPath
                         1 p) <> OutOfFuel)
    by (apply GetDirectoryStructure_budget; rewrite STR_MAX_eq; lia).
  change (4 * Z.of_nat 0 + 1) with 1 in Hcrash.
  destruct (GetDirectoryStructure FindFirstFile stale STR_MAX g strPath 1 p)
    as [t [[]| |]].
  - now exists t.
  - now destruct Hcrash.
  - now destruct Hfuel.
Qed.

End Returns.

Lemma strip_some suffix pattern dir :
  strip suffix pattern = Some dir -> pattern = dir ++ suffix.
Proof.
  unfold strip.
  destruct (wcs_eqb (skipn (length pattern - length suffix) pattern) suffix) eqn:E;
    [|discriminate].
  apply wcs_eqb_eq in E. intros H. inversion H; subst dir.
  rewrite <- E at 2. symmetry. apply firstn_skipn.
Qed.

Lemma lookup_key table : forall dir entries,
  lookup table dir = Some entries -> In (dir, entries) table.
Proof.
  induction table as [|[d es] table IH]; intros dir entries; simpl; [discriminate|].
  destruct (wcs_eqb d dir) eqn:E.
  - apply wcs_eqb_eq in E. intros H. inversion H; subst. now left.
  - intros H. right. now apply IH.
Qed.

Lemma host_opens table pattern FindFileData next :
  host table pattern = Some (FindFileData, next) ->
  exists dir,
    In (dir, FindFileData :: next) table /\ (length pattern <= length dir + 4)%nat.
Proof.
  unfold host.
  destruct (strip (L "\*.*") pattern) as [dir|] eqn:E1.
  - apply strip_some in E1. subst pattern.
    destruct (lookup table dir) as [[|e es]|] eqn:E; try discriminate.
    intros H. inversion H; subst. exists dir. split; [now apply lookup_key|].
    rewrite length_app. simpl. lia.
  - destruct (strip (L "\*.") pattern) as [dir|] eqn:E2; [|discriminate].
    apply strip_some in E2. subst pattern.
    destruct (lookup table dir) as [[|e es]|] eqn:E; try discriminate.
    intros H. inversion H; subst. exists dir. split; [now apply lookup_key|].
    rewrite length_app. simpl. lia.
Qed.

Lemma sample_keeps_MAX_PATH : keeps_MAX_PATH sample.
Proof.
  intros pattern d next H. apply host_opens in H. destruct H as (dir & H & Hlen).
  unfold sample_table in H. simpl in H. rewrite MAX_PATH_eq.
  destruct H as [H|[H|[H|[]]]]; inversion H; subst; simpl in Hlen;
    (split; [lia|]); repeat constructor; unfold fits; rewrite MAX_PATH_eq;
    simpl; lia.
Qed.

Lemma traversal_returns_on_MAX_PATH_host_witness :
  exists t,
    GetDirectoryStructure sample zeroed STR_MAX flags_FA (L "C:\R") 1
      (L "          ") = (t, Value tt).
Proof.
  apply (traversal_returns_on_MAX_PATH_host sample zeroed flags_FA
           sample_keeps_MAX_PATH (L "C:\R") (L "          ")).
  rewrite STR_MAX_eq. simpl. lia.
Defined.

(** ** Below a folder *)

Lemma glyph_idempotent ascii c : glyph ascii (glyph ascii c) = glyph ascii c.
Proof.
  unfold glyph. destruct (is_continuation c), ascii; reflexivity.
Qed.

Lemma columns_step width :
  (columns width + 5 <= STR_MAX)%nat ->
  columns ((width + 4) mod UINT_MAX1) = (columns width + 4)%nat.
Proof.
  intros H. unfold columns in *.
  assert (HM : 0 < UINT_MAX1) by reflexivity.
  rewrite Zminus_mod_idemp_l.
  replace (width + 4 - 1) with ((width - 1) + 4) by lia.
  rewrite <- Zplus_mod_idemp_l.
  pose proof (Z.mod_pos_bound (width - 1) UINT_MAX1 HM) as Hb.
  rewrite Z.mod_small.
  - rewrite Z2Nat.inj_add by lia. reflexivity.
  - split; [lia|]. rewrite STR_MAX_eq in H.
    apply Z.lt_le_trans with (m := 4096); [lia|]. discriminate.
Qed.

Lemma prefix_of_firstn ascii l n :
  (n <= length l)%nat ->
  prefix_of ascii l n 0 = map (glyph ascii) (firstn n l).
Proof.
  intros H. apply nth_ext with (d := 0) (d' := 0).
  - rewrite prefix_of_length, length_map, length_firstn. lia.
  - intros k Hk. rewrite prefix_of_length in Hk.
    rewrite prefix_of_nth by assumption. cbn [Nat.add].
    rewrite (nth_indep (map (glyph ascii) (firstn n l)) 0 (glyph ascii 0))
      by (rewrite length_map, length_firstn; lia).
    rewrite map_nth, nth_firstn.
    apply Nat.ltb_lt in Hk. now rewrite Hk.
Qed.

Lemma prefix_of_fixed ascii p n j :
  map (glyph ascii) (prefix_of ascii p n j) = prefix_of ascii p n j.
Proof.
  unfold prefix_of. rewrite map_map. apply map_ext.
  intros k. apply glyph_idempotent.
Qed.

(** What the level below draws under a connector. *)
Lemma connector_below ascii last :
  map (glyph ascii) (connector ascii last)
  = if last then L "    " else bar ascii :: L "   ".
Proof. destruct ascii, last; reflexivity. Qed.

(** The line composed below the line of a folder. *)
Lemma console_line_below_folder :
  forall ascii has szArr width prevLine i name consoleOut
         drawfolder' has' szArr' i' name' consoleOut',
    console_line ascii true has szArr width prevLine i name = Some consoleOut ->
    console_line ascii drawfolder' has' szArr' ((width + 4) mod UINT_MAX1)
      consoleOut i' name' = Some consoleOut' ->
    exists prefix,
      length prefix = columns width
      /\ consoleOut
         = prefix ++ StringCchPrintf STR_MAX (segment ascii true has szArr i name)
      /\ consoleOut'
         = prefix
           ++ (if (szArr - 1 =? i)%nat then L "    " else bar ascii :: L "   ")
           ++ StringCchPrintf STR_MAX
                (segment ascii drawfolder' has' szArr' i' name').
Proof.
  intros ascii has n w p i name line df' has' n' i' name' line' Hline Hline'.
  apply console_line_some in Hline. destruct Hline as [Hline Hlen].
  apply console_line_some in Hline'. destruct Hline' as [Hline' _].
  pose proof (folder_segment_length ascii has n i name) as Hseg.
  exists (prefix_of ascii p (columns w) 0).
  split; [apply prefix_of_length|]. split; [assumption|].
  rewrite Hline' at 1. rewrite app_assoc. f_equal.
  assert (Hc : columns ((w + 4) mod UINT_MAX1) = (columns w + 4)%nat).
  { apply columns_step. rewrite Hline, length_app, prefix_of_length in Hlen. lia. }
  rewrite Hc, prefix_of_firstn
    by (rewrite Hline, length_app, prefix_of_length; lia).
  rewrite Hline, firstn_app, prefix_of_length.
  rewrite firstn_all2 by (rewrite prefix_of_length; lia).
  replace (columns w + 4 - columns w)%nat with 4%nat by lia.
  rewrite map_app, prefix_of_fixed. f_equal.
  unfold StringCchPrintf. rewrite firstn_firstn.
  replace (Nat.min 4 (STR_MAX - 1)) with 4%nat by (rewrite STR_MAX_eq; reflexivity).
  rewrite segment_folder, firstn_app, connector_length.
  rewrite firstn_all2 by (rewrite connector_length; lia).
  cbn [Nat.sub firstn]. rewrite app_nil_r. apply connector_below.
Qed.

(** X15. Below a folder, every line [DrawTree] writes, for a file or a
    folder, starts with the prefix of the folder's own line, carried down
    as it is, then four columns more: a continuation bar and three blanks
    under a folder that is not the last of its list, four blanks under the
    last; then comes the text of the line itself. *)
Theorem subtree_drawn_under_its_folder :
  forall FindFirstFile stale recurse g has szArr width prevLine i name consoleOut
         strPath pre entry post drawfolder t,
    console_line (bUseAscii g) true has szArr width prevLine i name
    = Some consoleOut ->
    DrawTree FindFirstFile stale recurse g strPath (pre ++ entry :: post)
      ((width + 4) mod UINT_MAX1) consoleOut drawfolder = (t, Value tt) ->
    let below := (width + 4) mod UINT_MAX1 in
    let n := length (pre ++ entry :: post) in
    exists (prefix : wstring) (has' : bool) (t_sub : list event),
      let line :=
        prefix
        ++ (if (szArr - 1 =? i)%nat then L "    " else bar (bUseAscii g) :: L "   ")
        ++ StringCchPrintf STR_MAX
             (segment (bUseAscii g) drawfolder has' n (length pre)
                (cFileName entry)) in
      let loop := DrawTree_loop recurse g strPath n below consoleOut drawfolder
                    has' in
      length prefix = columns width
      /\ consoleOut
         = prefix ++ StringCchPrintf STR_MAX
                       (segment (bUseAscii g) true has szArr i name)
      /\ (if drawfolder then
            exists child,
              child_path strPath (cFileName entry) = Some child
              /\ recurse child ((below + 4) mod UINT_MAX1) line = (t_sub, Value tt)
          else t_sub = [])
      /\ t = FindFirst (strPath ++ L "\*.")
             :: fst (loop 0%nat pre)
             ++ Stdout (line ++ LF) :: t_sub
             ++ fst (loop (S (length pre)) post).
Proof.
  intros FS stale recurse g has szArr w p i name consoleOut strPath pre entry post
         df t Hfolder H below n.
  destruct (DrawTree_entry_value _ _ _ _ _ _ _ _ _ _ _ _ H)
    as (has' & line & t_sub & Hline & Hsub & ->).
  fold n below in Hline.
  destruct (console_line_below_folder _ _ _ _ _ _ _ _ _ _ _ _ _ _ Hfolder Hline)
    as (prefix & Hlen & Hout & ->).
  exists prefix, has', t_sub. cbv zeta.
  split; [assumption|]. split; [assumption|]. split; [assumption|]. reflexivity.
Qed.

Lemma subtree_drawn_under_its_folder_witness :
  exists (prefix : wstring) (has' : bool) (t_sub : list event),
    let line :=
      prefix
      ++ (if (2 - 1 =? 0)%nat then L "    " else bar (bUseAscii flags_A) :: L "   ")
      ++ StringCchPrintf STR_MAX
           (segment (bUseAscii flags_A) true has' 1 0 (L "x")) in
    let loop := DrawTree_loop (sample_walk flags_A) flags_A (L "C:\R\a") 1
                  ((1 + 4) mod UINT_MAX1) (L "+---a") true has' in
    length prefix = columns 1
    /\ L "+---a"
       = prefix ++ StringCchPrintf STR_MAX
                     (segment (bUseAscii flags_A) true false 2 0 (L "a"))
    /\ (exists child,
          child_path (L "C:\R\a") (L "x") = Some child
          /\ sample_walk flags_A child (((1 + 4) mod UINT_MAX1 + 4) mod UINT_MAX1)
               line = (t_sub, Value tt))
    /\ fst (DrawTree sample zeroed (sample_walk flags_A) flags_A (L "C:\R\a")
              ([] ++ folder "x" :: []) ((1 + 4) mod UINT_MAX1) (L "+---a") true)
       = FindFirst (L "C:\R\a" ++ L "\*.")
         :: fst (loop 0%nat [])
         ++ Stdout (line ++ LF) :: t_sub
         ++ fst (loop 1%nat []).
Proof.
  apply (subtree_drawn_under_its_folder sample zeroed (sample_walk flags_A) flags_A
           false 2 1 (L "          ") 0 (L "a") (L "+---a") (L "C:\R\a")
           [] (folder "x") [] true).
  - reflexivity.
  - vm_compute. reflexivity.
Defined.

(** ** ASCII mode writes ASCII art *)

Lemma to_ascii_not_box c : ~ In (to_ascii c) box_drawing.
Proof.
  unfold to_ascii, box_drawing.
  destruct (Z.eqb_spec c u251c) as [_|H1];
    [intros [E|[E|[E|[E|[]]]]]; discriminate E|].
  destruct (Z.eqb_spec c u2500) as [_|H2];
    [intros [E|[E|[E|[E|[]]]]]; discriminate E|].
  destruct (Z.eqb_spec c u2514) as [_|H3];
    [intros [E|[E|[E|[E|[]]]]]; discriminate E|].
  destruct (Z.eqb_spec c u2502) as [_|H4];
    [intros [E|[E|[E|[E|[]]]]]; discriminate E|].
  intros [E|[E|[E|[E|[]]]]]; congruence.
Qed.

(** X16. With [bUseAscii] set, on a host whose names hold no box-drawing
    character, the traversal writes none: whatever it draws, it draws
    with [+], [-], [\], [|] and blanks. *)
Theorem ascii_mode_writes_no_box_drawing :
  forall FindFirstFile stale fuel showfiles setpath strPath width prevLine text c,
    plain_host FindFirstFile ->
    In text (written (GetDirectoryStructure FindFirstFile stale fuel
                        (mkGlobals showfiles true setpath) strPath width prevLine)) ->
    In c text ->
    ~ In c box_drawing.
Proof.
  intros FS stale fuel sf sp strPath w p text c Hplain Htext Hc.
  unfold written in Htext.
  rewrite (GetDirectoryStructure_to_ascii FS stale Hplain sf sp fuel strPath w p p)
    in Htext by (intros j _; reflexivity).
  cbn [substituted fst] in Htext. rewrite show_substitute in Htext.
  apply in_map_iff in Htext. destruct Htext as (text' & <- & _).
  apply in_map_iff in Hc. destruct Hc as (c' & <- & _).
  apply to_ascii_not_box.
Qed.

Lemma ascii_mode_writes_no_box_drawing_witness :
  ~ In (wc "+") box_drawing.
Proof.
  apply (ascii_mode_writes_no_box_drawing sample zeroed 5 true false (L "C:\R") 1
           (L "          ") (L "+---a" ++ LF) (wc "+") sample_plain).
  - vm_compute. repeat (first [left; reflexivity | right]).
  - left. reflexivity.
Defined.
